(** * ryujin: the convex limiter of the Euler equations and the mesh adaptor

    A shallow embedding of

    - [Limiter<dim, Number>] (the bounds accumulator [reset] / [accumulate] /
      [apply_relaxation] / [bounds] and the stub [is_in_invariant_domain]),
    - [MeshAdaptor<Description, dim, Number>] ([prepare], [analyze],
      [mark_cells_for_coarsening_and_refinement]).

    The limiter is a template over its number type.  The embedding keeps it
    that way: every operation is written once over a class [Number] and is
    then read at two instances,

    - [binary64], the IEEE doubles of the default instantiation
      [Number = double], on which the code is evaluated on concrete inputs;
    - [R], exact arithmetic, in which the algebraic properties are proved.

    A vectorised [Number] is a batch of independent lanes; one lane is
    modelled. *)

From Stdlib Require Import PrimFloat.
From Stdlib Require Import Reals Lra Lia List ZArith Bool Permutation.
Import ListNotations.

Set Implicit Arguments.

(** ** Outcomes of a call

    deal.II's [AssertThrow(cond, exc)] throws [exc] when [cond] is false, in
    debug and in release builds; [__builtin_trap()] ends the process. *)

Inductive dealii_exception : Set :=
| ExcNotImplemented
| ExcInternalError.

Inductive outcome (A : Type) : Type :=
| Returns (a : A)
| Throws (e : dealii_exception)
| Traps.

Arguments Returns {A} a.
Arguments Throws {A} e.
Arguments Traps {A}.

Definition bind {A B : Type} (c : outcome A) (k : A -> outcome B) : outcome B :=
  match c with
  | Returns a => k a
  | Throws e => Throws e
  | Traps => Traps
  end.

Definition AssertThrow (cond : bool) (exc : dealii_exception) : outcome unit :=
  if cond then Returns tt else Throws exc.

Definition builtin_trap : outcome unit := Traps.

Declare Scope outcome_scope.
Delimit Scope outcome_scope with outcome.
Notation "c ;; k" := (bind c (fun _ => k))
  (at level 61, right associativity) : outcome_scope.
Notation "x <- c ;; k" := (bind c (fun x => k))
  (at level 61, c at next level, right associativity) : outcome_scope.

Definition returns_normally {A : Type} (c : outcome A) : bool :=
  match c with
  | Returns _ => true
  | _ => false
  end.

(** ** The number type of the templates *)

Class Number (N : Type) : Type := {
  n_zero : N;                   (* Number(0.) *)
  n_one : N;                    (* Number(1.) *)
  n_two : N;                    (* Number(2.) *)
  n_half : N;                   (* ScalarNumber(0.5) *)
  n_add : N -> N -> N;
  n_sub : N -> N -> N;
  n_mul : N -> N -> N;
  n_div : N -> N -> N;
  n_abs : N -> N;               (* std::abs *)
  n_sqrt : N -> N;              (* std::sqrt *)
  n_lt : N -> N -> bool;        (* operator< *)
  numeric_limits_max : N;       (* std::numeric_limits<ScalarNumber>::max() *)
  numeric_limits_epsilon : N    (* std::numeric_limits<ScalarNumber>::epsilon() *)
}.

Declare Scope number_scope.
Delimit Scope number_scope with num.
Infix "+" := n_add : number_scope.
Infix "-" := n_sub : number_scope.
Infix "*" := n_mul : number_scope.
Infix "/" := n_div : number_scope.
Infix "<?" := n_lt : number_scope.

Section StdNumeric.
Context {N : Type} `{Number N}.
Local Open Scope number_scope.

(** [std::min(a, b)] is [(b < a) ? b : a]. *)
Definition std_min (a b : N) : N := if b <? a then b else a.

(** [std::max(a, b)] is [(a < b) ? b : a]. *)
Definition std_max (a b : N) : N := if a <? b then b else a.

(** [dealii::Utilities::fixed_power<3>(x)]: the recursion
    [x * fixed_power<1>(x * x)] of deal.II, unrolled. *)
Definition fixed_power_3 (x : N) : N := x * (x * x).
End StdNumeric.

(** *** [Number = double] *)

Definition binary64 : Type := PrimFloat.float.

#[export] Instance binary64_Number : Number binary64 := {
  n_zero := 0%float;
  n_one := 1%float;
  n_two := 2%float;
  n_half := 0.5%float;
  n_add := PrimFloat.add;
  n_sub := PrimFloat.sub;
  n_mul := PrimFloat.mul;
  n_div := PrimFloat.div;
  n_abs := PrimFloat.abs;
  n_sqrt := PrimFloat.sqrt;
  n_lt := PrimFloat.ltb;
  numeric_limits_max := 0x1.fffffffffffffp+1023%float;
  numeric_limits_epsilon := 0x1p-52%float
}.

(** *** Exact arithmetic *)

Definition Rltb (x y : R) : bool := if Rlt_dec x y then true else false.

(** The largest finite double, [(2 - 2^-52) * 2^1023], as a real number. *)
Definition R_max : R := IZR (2 ^ 1024 - 2 ^ 971).

(** The machine epsilon of double, [2^-52], as a real number. *)
Definition R_epsilon : R := / IZR (2 ^ 52).

#[export] Instance R_Number : Number R := {
  n_zero := 0%R;
  n_one := 1%R;
  n_two := 2%R;
  n_half := (/ 2)%R;
  n_add := Rplus;
  n_sub := Rminus;
  n_mul := Rmult;
  n_div := Rdiv;
  n_abs := Rabs;
  n_sqrt := R_sqrt.sqrt;
  n_lt := Rltb;
  numeric_limits_max := R_max;
  numeric_limits_epsilon := R_epsilon
}.

(** ** [dealii::Tensor<1, n, Number>]

    A rank-1 tensor is the list of its components; the C++ types fix the
    length ([dim] for momenta and edge coefficients, [dim + 2] for states). *)

Section Tensor.
Context {N : Type} `{Number N}.
Local Open Scope number_scope.

Definition tensor : Type := list N.

Fixpoint zip_with (f : N -> N -> N) (a b : tensor) : tensor :=
  match a, b with
  | x :: a', y :: b' => f x y :: zip_with f a' b'
  | _, _ => []
  end.

Definition tensor_add (a b : tensor) : tensor := zip_with n_add a b.
Definition tensor_sub (a b : tensor) : tensor := zip_with n_sub a b.
Definition tensor_scale (a : tensor) (s : N) : tensor :=
  map (fun x => x * s) a.

(** [operator*] of two rank-1 tensors, the contraction
    [a[0] * b[0] + ... + a[n-1] * b[n-1]]. *)
Definition contract (a b : tensor) : N :=
  match zip_with n_mul a b with
  | [] => n_zero
  | p :: ps => fold_left n_add ps p
  end.
End Tensor.

Arguments tensor N : clear implicits.

(** ** [ryujin::Euler::Limiter<dim, Number>] *)

Module Euler.
Section Limiter.
Context {N : Type} `{Number N}.
Local Open Scope number_scope.

(** [state_type], a [Tensor<1, dim + 2, Number>]. *)
Definition state_type : Type := tensor N.

(** [HyperbolicSystem::View<dim, Number>] is declared in
    hyperbolic_system.h; the limiter calls three of its functions. *)
Record HyperbolicSystemView : Type := {
  density : state_type -> N;
  momentum : state_type -> tensor N;
  specific_entropy : state_type -> N
}.

(** [precomputed_state_type], the pair (specific entropy, eta) that
    [get_tensor] returns for a node. *)
Definition precomputed_state_type : Type := (N * N)%type.

(** [MultiComponentVector<ScalarNumber, n_precomputed_values>], read
    through [get_tensor<Number, precomputed_state_type>(i)]. *)
Definition MultiComponentVector : Type := nat -> precomputed_state_type.

(** [using Bounds = std::array<Number, 3>], destructured everywhere as
    [auto &[rho_min, rho_max, s_min] = bounds_]. *)
Record Bounds : Type := Build_Bounds {
  rho_min : N;
  rho_max : N;
  s_min : N
}.

(** The data members of the class. *)
Record Limiter : Type := Build_Limiter {
  hyperbolic_system : HyperbolicSystemView;
  precomputed_values : MultiComponentVector;
  bounds_ : Bounds;
  rho_relaxation_numerator : N;
  rho_relaxation_denominator : N;
  s_interp_max : N
}.

Definition reset (L : Limiter) (i : nat) : Limiter :=
  (* Bounds: *)
  let rho_min := numeric_limits_max in
  let rho_max := n_zero in
  let '(s_i, eta_i) := precomputed_values L i in
  let s_min := s_i in
  (* Relaxation: *)
  {| hyperbolic_system := hyperbolic_system L;
     precomputed_values := precomputed_values L;
     bounds_ := {| rho_min := rho_min; rho_max := rho_max; s_min := s_min |};
     rho_relaxation_numerator := n_zero;
     rho_relaxation_denominator := n_zero;
     s_interp_max := n_zero |}.

(** The two flux contributions of the C++ signature are unnamed and
    unused; they are left out. *)
Definition accumulate (L : Limiter) (js : nat) (U_i U_j : state_type)
    (scaled_c_ij : tensor N) (beta_ij : N) : Limiter :=
  let hs := hyperbolic_system L in
  (* Bounds: *)
  let rho_i := density hs U_i in
  let m_i := momentum hs U_i in
  let rho_j := density hs U_j in
  let m_j := momentum hs U_j in
  let rho_ij_bar :=
    n_half * (rho_i + rho_j + contract (tensor_sub m_i m_j) scaled_c_ij) in
  let rho_min := std_min (rho_min (bounds_ L)) rho_ij_bar in
  let rho_max := std_max (rho_max (bounds_ L)) rho_ij_bar in
  let '(s_j, eta_j) := precomputed_values L js in
  let s_min := std_min (s_min (bounds_ L)) s_j in
  (* Relaxation: *)
  let s_interp :=
    specific_entropy hs (tensor_scale (tensor_add U_i U_j) n_half) in
  {| hyperbolic_system := hs;
     precomputed_values := precomputed_values L;
     bounds_ := {| rho_min := rho_min; rho_max := rho_max; s_min := s_min |};
     rho_relaxation_numerator :=
       rho_relaxation_numerator L + beta_ij * (rho_i + rho_j);
     rho_relaxation_denominator :=
       rho_relaxation_denominator L + n_abs beta_ij;
     s_interp_max := std_max (s_interp_max L) s_interp |}.

(** [r_i] of [apply_relaxation]; [dim] is the template parameter. *)
Definition relaxation_radius (dim : nat) (hd_i factor : N) : N :=
  let r_i := n_sqrt hd_i in                         (* in 3D: ^ 3/6 *)
  let r_i :=
    if Nat.eqb dim 2 then fixed_power_3 (n_sqrt r_i)  (* in 2D: ^ 3/4 *)
    else if Nat.eqb dim 1 then fixed_power_3 r_i      (* in 1D: ^ 3/2 *)
    else r_i in
  r_i * factor.

(** The divisor of [rho_relaxation], with its epsilon guard. *)
Definition rho_relaxation_divisor (L : Limiter) : N :=
  let eps := numeric_limits_epsilon in
  n_abs (rho_relaxation_denominator L) + eps.

(** [rho_relaxation] of [apply_relaxation]. *)
Definition rho_relaxation (L : Limiter) : N :=
  n_abs (rho_relaxation_numerator L) / rho_relaxation_divisor L.

Definition apply_relaxation (dim : nat) (L : Limiter) (hd_i factor : N)
    : Limiter :=
  let r_i := relaxation_radius dim hd_i factor in
  let rho_relaxation := rho_relaxation L in
  let b := bounds_ L in
  let rho_min' :=
    std_max ((n_one - r_i) * rho_min b)
            (rho_min b - n_two * rho_relaxation) in
  let rho_max' :=
    std_min ((n_one + r_i) * rho_max b)
            (rho_max b + n_two * rho_relaxation) in
  let s_min' :=
    std_max ((n_one - r_i) * s_min b)
            (n_two * s_min b - s_interp_max L) in
  {| hyperbolic_system := hyperbolic_system L;
     precomputed_values := precomputed_values L;
     bounds_ := {| rho_min := rho_min'; rho_max := rho_max'; s_min := s_min' |};
     rho_relaxation_numerator := rho_relaxation_numerator L;
     rho_relaxation_denominator := rho_relaxation_denominator L;
     s_interp_max := s_interp_max L |}.

Definition bounds (L : Limiter) : Bounds := bounds_ L.

Definition is_in_invariant_domain (hs : HyperbolicSystemView)
    (bounds : Bounds) (U : state_type) : outcome bool :=
  (AssertThrow false ExcNotImplemented ;;
   builtin_trap ;;
   Returns true)%outcome.

(** *** The stencil loop of the class documentation

    [reset(i)], one [accumulate] per entry of the row, then
    [apply_relaxation] and [bounds()]. *)

Record accumulate_call : Type := Build_accumulate_call {
  call_js : nat;
  call_U_i : state_type;
  call_U_j : state_type;
  call_scaled_c_ij : tensor N;
  call_beta_ij : N
}.

Definition accumulate_one (L : Limiter) (c : accumulate_call) : Limiter :=
  accumulate L (call_js c) (call_U_i c) (call_U_j c)
             (call_scaled_c_ij c) (call_beta_ij c).

Definition accumulate_all (L : Limiter) (calls : list accumulate_call)
    : Limiter :=
  fold_left accumulate_one calls L.

Definition stencil_bounds (dim : nat) (L : Limiter) (i : nat)
    (calls : list accumulate_call) (hd_i factor : N) : Bounds :=
  bounds (apply_relaxation dim (accumulate_all (reset L i) calls) hd_i factor).

(** The edge density estimate [rho_ij_bar] of one call. *)
Definition rho_ij_bar (hs : HyperbolicSystemView) (c : accumulate_call) : N :=
  n_half * (density hs (call_U_i c) + density hs (call_U_j c)
            + contract (tensor_sub (momentum hs (call_U_i c))
                                   (momentum hs (call_U_j c)))
                       (call_scaled_c_ij c)).
End Limiter.

Arguments HyperbolicSystemView N : clear implicits.
Arguments Bounds N : clear implicits.
Arguments Limiter N : clear implicits.
Arguments accumulate_call N : clear implicits.
Arguments state_type N : clear implicits.
Arguments MultiComponentVector N : clear implicits.

(** *** The coefficient limiter *)

(** Modelled from the spec: [Limiter::limit] is declared in the class, its
    definition is in a file that is not under src/.  The model follows the
    three steps of the spec's "Coefficient Limiter":

    + density is affine in [t]; the two linear inequalities
      [rho_min <= density (U + t P) <= rho_max] are solved and [t_min, t_max]
      shrinks to the density-feasible sub-interval, which collapses to
      [t_min] when it is empty;
    + when entropy limiting is enabled, a safeguarded Newton iteration on
      [Psi t = density (U + t P) ^ (gamma + 1)
               * (specific_entropy (U + t P) - s_min)]:
      a Newton step, replaced by a bisection step when it leaves the
      bracket; the bracket is updated from the sign of [Psi] at the new
      point; the iteration stops when [|Psi| < tolerance] or after
      [max_iterations] steps and returns the feasible (left) end of the
      bracket;
    + the result is clamped to [t_min, t_max]; divisions are guarded by an
      epsilon floor.

    The spec leaves open how the Newton step is computed and how
    [rho ^ (gamma + 1)] is evaluated: both are parameters ([newton_step],
    [pow_gamma_plus_1]). *)

Section Limit.
Context {N : Type} `{Number N}.
Local Open Scope number_scope.

Variable hs : HyperbolicSystemView N.
Variable pow_gamma_plus_1 : N -> N.
Variable newton_step : (N -> N) -> N -> N -> N.
Variable entropy_limiting : bool.

Definition n_le (a b : N) : bool := negb (b <? a).

(** [U + t * P]. *)
Definition state_at (U P : state_type N) (t : N) : state_type N :=
  tensor_add U (tensor_scale P t).

(** The invariant domain in the spec's words: density within
    [[rho_min, rho_max]] and specific entropy at least [s_min]. *)
Definition in_invariant_domain (b : Bounds N) (U : state_type N) : bool :=
  n_le (rho_min b) (density hs U) && n_le (density hs U) (rho_max b)
  && n_le (s_min b) (specific_entropy hs U).

(** Modelled from the spec: "guard all divisions with an epsilon floor". *)
Definition guarded_div (a d : N) : N :=
  a / std_max (n_abs d) numeric_limits_epsilon.

(** Modelled from the spec: step 1, the density-feasible sub-interval of
    [[t_min, t_max]], collapsed to [t_min] when it is empty. *)
Definition density_interval (b : Bounds N) (U P : state_type N)
    (t_min t_max : N) : N * N :=
  let rho_U := density hs U in
  let rho_P := density hs P in
  let '(lo, hi) :=
    if n_zero <? rho_P then
      (guarded_div (rho_min b - rho_U) rho_P,
       guarded_div (rho_max b - rho_U) rho_P)
    else if rho_P <? n_zero then
      (guarded_div (rho_U - rho_max b) rho_P,
       guarded_div (rho_U - rho_min b) rho_P)
    else (t_min, t_max) in
  let t_l := std_max t_min lo in
  let t_r := std_min t_max hi in
  if t_r <? t_l then (t_min, t_min) else (t_l, t_r).

Definition Psi (b : Bounds N) (U P : state_type N) (t : N) : N :=
  let V := state_at U P t in
  pow_gamma_plus_1 (density hs V) * (specific_entropy hs V - s_min b).

(** Modelled from the spec: step 2, the safeguarded iteration on the bracket
    [[t_l, t_r]], whose left end is feasible. *)
Fixpoint newton (psi : N -> N) (tolerance : N) (iterations : nat)
    (t_l t_r : N) : N :=
  match iterations with
  | O => t_l
  | S n =>
      let t_n := newton_step psi t_l t_r in
      let t :=
        if n_le t_l t_n && n_le t_n t_r then t_n
        else n_half * (t_l + t_r) in
      let psi_t := psi t in
      let '(t_l', t_r') :=
        if psi_t <? n_zero then (t_l, t) else (t, t_r) in
      if n_abs psi_t <? tolerance then t_l'
      else newton psi tolerance n t_l' t_r'
  end.

(** Modelled from the spec: steps 1 and 2.  When the right end of the
    density-feasible interval already satisfies the entropy bound it is the
    largest admissible coefficient and no iteration is needed. *)
Definition limit_unclamped (b : Bounds N) (U P : state_type N)
    (tolerance : N) (max_iterations : nat) (t_min t_max : N) : N :=
  let '(t_l, t_r) := density_interval b U P t_min t_max in
  if entropy_limiting then
    let psi := Psi b U P in
    if n_le n_zero (psi t_r) then t_r
    else newton psi tolerance max_iterations t_l t_r
  else t_r.

(** Modelled from the spec: [limit(bounds, U, P, tolerance, max_iterations,
    t_min, t_max)] returns the coefficient and the flag [feasible], which
    tells whether the state at [t_min] satisfies the bounds. *)
Definition limit (b : Bounds N) (U P : state_type N)
    (tolerance : N) (max_iterations : nat) (t_min t_max : N) : N * bool :=
  let t := limit_unclamped b U P tolerance max_iterations t_min t_max in
  (* Step 3: clamp *)
  let t := std_min t t_max in
  let t := std_max t t_min in
  (t, in_invariant_domain b (state_at U P t_min)).
End Limit.
End Euler.

(** ** The conserved state *)

Section ConservedState.
Context {N : Type} `{Number N}.

(** Modelled from the spec: the state algebra of hyperbolic_system.h, which
    is not under src/.  A conserved state is (density, momentum components,
    energy); [density] and [momentum] read its components and the specific
    entropy is a function [se] supplied by the equation of state. *)
Definition conserved_view (dim : nat) (se : Euler.state_type N -> N)
    : Euler.HyperbolicSystemView N :=
  {| Euler.density := fun U => nth 0 U n_zero;
     Euler.momentum := fun U => firstn dim (tl U);
     Euler.specific_entropy := se |}.

(** A limiter object right after its constructor: the bounds and the
    relaxation temporaries are whatever [junk] the memory held. *)
Definition constructed (hs : Euler.HyperbolicSystemView N)
    (pre : Euler.MultiComponentVector N) (junk : N) : Euler.Limiter N :=
  {| Euler.hyperbolic_system := hs;
     Euler.precomputed_values := pre;
     Euler.bounds_ :=
       {| Euler.rho_min := junk; Euler.rho_max := junk; Euler.s_min := junk |};
     Euler.rho_relaxation_numerator := junk;
     Euler.rho_relaxation_denominator := junk;
     Euler.s_interp_max := junk |}.
End ConservedState.

(** ** [ryujin::MeshAdaptor<Description, dim, Number>] *)

Module Adaptor.

(** Modelled from the spec: the three strategy enumerations are declared in
    mesh_adaptor.h, which is not under src/.  Their enumerators are the ones
    the constructor documents and the switch statements name; a C++
    enumeration can also hold a value that is none of its enumerators, which
    is what the [default:] branches see: the [unrecognized_*] values. *)

Inductive AdaptationStrategy : Set :=
| global_refinement
| random_adaptation
| unrecognized_adaptation (v : nat).

(** Modelled from the spec: [MarkingStrategy] of mesh_adaptor.h. *)
Inductive MarkingStrategy : Set :=
| fixed_number
| unrecognized_marking (v : nat).

(** Modelled from the spec: [TimePointSelectionStrategy] of
    mesh_adaptor.h. *)
Inductive TimePointSelectionStrategy : Set :=
| fixed_adaptation_time_points
| unrecognized_time_point_selection (v : nat).

(** An active cell of the triangulation, with its two flags. *)
Record cell : Set := Build_cell {
  refine_flag : bool;
  coarsen_flag : bool
}.

Definition Triangulation : Set := list cell.

Definition set_refine_flag (c : cell) : cell :=
  {| refine_flag := true; coarsen_flag := coarsen_flag c |}.

Section MeshAdaptor.
Context {N : Type} `{Number N}.
Local Open Scope number_scope.

(** The state of [std::mt19937_64] and a draw of the uniform distribution
    on [0, 10) from it. *)
Variable mt19937_64 : Type.
Variable distribution : mt19937_64 -> N * mt19937_64.

(** [dealii::GridRefinement::refine_and_coarsen_fixed_number]. *)
Variable refine_and_coarsen_fixed_number :
  Triangulation -> list N -> N -> N -> Triangulation.

Record MeshAdaptor : Type := Build_MeshAdaptor {
  adaptation_strategy_ : AdaptationStrategy;
  marking_strategy_ : MarkingStrategy;
  time_point_selection_strategy_ : TimePointSelectionStrategy;
  fixed_number_refinement_fraction_ : N;
  fixed_number_coarsening_fraction_ : N;
  adaptation_time_points_ : list N;
  need_mesh_adaptation_ : bool;
  mersenne_twister_ : mt19937_64
}.

Definition with_time_points (A : MeshAdaptor) (pts : list N) (need : bool)
    : MeshAdaptor :=
  {| adaptation_strategy_ := adaptation_strategy_ A;
     marking_strategy_ := marking_strategy_ A;
     time_point_selection_strategy_ := time_point_selection_strategy_ A;
     fixed_number_refinement_fraction_ := fixed_number_refinement_fraction_ A;
     fixed_number_coarsening_fraction_ := fixed_number_coarsening_fraction_ A;
     adaptation_time_points_ := pts;
     need_mesh_adaptation_ := need;
     mersenne_twister_ := mersenne_twister_ A |}.

Definition prepare (A : MeshAdaptor) (t : N) : MeshAdaptor :=
  let pts :=
    match time_point_selection_strategy_ A with
    | fixed_adaptation_time_points =>
        (* Remove outdated refinement timestamps: *)
        filter (fun t_refinement => negb (t_refinement <? t))
               (adaptation_time_points_ A)
    | unrecognized_time_point_selection _ =>
        (* do nothing *)
        adaptation_time_points_ A
    end in
  (* toggle mesh adaptation flag to off. *)
  with_time_points A pts false.

(** [std::remove_if] and [erase] with the predicate of [analyze], which
    sets [need_mesh_adaptation_] on every time point it removes. *)
Fixpoint remove_past (t : N) (pts : list N) (need : bool) : list N * bool :=
  match pts with
  | [] => ([], need)
  | t_refinement :: rest =>
      if t <? t_refinement then
        let '(kept, need') := remove_past t rest need in
        (t_refinement :: kept, need')
      else remove_past t rest true
  end.

(** The state vector and the cycle number of the C++ signature are unnamed
    and unused; they are left out. *)
Definition analyze (A : MeshAdaptor) (t : N) : outcome MeshAdaptor :=
  match time_point_selection_strategy_ A with
  | fixed_adaptation_time_points =>
      (* Remove all refinement points that lie in the past: *)
      let '(pts, need) :=
        remove_past t (adaptation_time_points_ A) (need_mesh_adaptation_ A) in
      Returns (with_time_points A pts need)
  | unrecognized_time_point_selection _ =>
      (AssertThrow false ExcInternalError ;;
       builtin_trap ;;
       Returns A)%outcome
  end.

(** [std::generate] over the indicator vector. *)
Fixpoint generate (n : nat) (g : mt19937_64) : list N * mt19937_64 :=
  match n with
  | O => ([], g)
  | S n' =>
      let '(x, g') := distribution g in
      let '(xs, g'') := generate n' g' in
      (x :: xs, g'')
  end.

(** The first switch: either the function returns from inside it, with
    the triangulation it leaves ([inl]), or it goes on with the indicators
    ([inr]). *)
Definition compute_indicators (A : MeshAdaptor) (triangulation : Triangulation)
    : outcome (Triangulation + list N * mt19937_64) :=
  match adaptation_strategy_ A with
  | global_refinement =>
      (* Simply mark all cells for refinement and return: *)
      Returns (inl (map set_refine_flag triangulation))
  | random_adaptation =>
      Returns (inr (generate (length triangulation) (mersenne_twister_ A)))
  | unrecognized_adaptation _ =>
      (AssertThrow false ExcInternalError ;;
       builtin_trap ;;
       Returns (inr ([], mersenne_twister_ A)))%outcome
  end.

(** The function is [const]; what it changes is the triangulation it is
    passed and the [mutable] generator.  The debug-only [Assert] on the
    identity of the triangulation object is not modelled. *)
Definition mark_cells_for_coarsening_and_refinement (A : MeshAdaptor)
    (triangulation : Triangulation) : outcome (Triangulation * mt19937_64) :=
  (r <- compute_indicators A triangulation ;;
   match r with
   | inl marked => Returns (marked, mersenne_twister_ A)
   | inr (indicators, g) =>
       (* Mark cells with chosen marking strategy: *)
       match marking_strategy_ A with
       | fixed_number =>
           Returns (refine_and_coarsen_fixed_number
                      triangulation indicators
                      (fixed_number_refinement_fraction_ A)
                      (fixed_number_coarsening_fraction_ A), g)
       | unrecognized_marking _ =>
           AssertThrow false ExcInternalError ;;
           builtin_trap ;;
           Returns (triangulation, g)
       end
   end)%outcome.
End MeshAdaptor.

Arguments MeshAdaptor N mt19937_64 : clear implicits.
End Adaptor.

(** ** Concrete inputs

    One-dimensional states [(density, momentum, energy)]. *)

Module Double.
Local Open Scope float_scope.

(** A state algebra whose specific entropy is [2.5] everywhere. *)
Definition view : Euler.HyperbolicSystemView binary64 :=
  conserved_view 1 (fun _ => 2.5).

Definition limiter : Euler.Limiter binary64 :=
  constructed view (fun _ => (2.5, 0)) 7.

(** The bounds [{0.9, 1.1, 2.0}] of the spec's scenario, written with the
    doubles nearest to [0.9] and [1.1]. *)
Definition scenario_bounds : Euler.Bounds binary64 :=
  {| Euler.rho_min := 0x1.ccccccccccccdp-1;
     Euler.rho_max := 0x1.199999999999ap+0;
     Euler.s_min := 2 |}.

(** A state of density [1.0]. *)
Definition scenario_state : Euler.state_type binary64 := [1; 0; 1].

(** A call with states of densities [rho_i], [rho_j] and momenta [m_i],
    [m_j], scaled edge coefficient [0.5] and weight [1.0]. *)
Definition edge (rho_i m_i rho_j m_j : binary64)
    : Euler.accumulate_call binary64 :=
  {| Euler.call_js := 0;
     Euler.call_U_i := [rho_i; m_i; 1];
     Euler.call_U_j := [rho_j; m_j; 1];
     Euler.call_scaled_c_ij := [0.5];
     Euler.call_beta_ij := 1 |}.

(** A node of density [1.0] at rest and three neighbours at rest, of
    densities [1.1], [1.2] and [1.3] (the nearest doubles), visited in
    two orders. *)
Definition d1_1 : binary64 := 0x1.199999999999ap+0.
Definition d1_2 : binary64 := 0x1.3333333333333p+0.
Definition d1_3 : binary64 := 0x1.4cccccccccccdp+0.

Definition row_ascending : list (Euler.accumulate_call binary64) :=
  [edge 1 0 d1_1 0; edge 1 0 d1_2 0; edge 1 0 d1_3 0].

Definition row_descending : list (Euler.accumulate_call binary64) :=
  [edge 1 0 d1_3 0; edge 1 0 d1_2 0; edge 1 0 d1_1 0].

(** The limiter after [reset(0)] and the given calls. *)
Definition accumulated (calls : list (Euler.accumulate_call binary64))
    : Euler.Limiter binary64 :=
  Euler.accumulate_all (Euler.reset limiter 0) calls.

(** Its density bounds. *)
Definition density_bounds (calls : list (Euler.accumulate_call binary64))
    : binary64 * binary64 :=
  let b := Euler.bounds_ (accumulated calls) in
  (Euler.rho_min b, Euler.rho_max b).

(** The relaxed bounds of a row for [hd = 4] and the default factor 2. *)
Definition relaxed_bounds (calls : list (Euler.accumulate_call binary64))
    : Euler.Bounds binary64 :=
  Euler.stencil_bounds 1 limiter 0 calls 4 2.

(** The readings of the spec's scenario "momenta 0 and 1": the same call
    (node 0, neighbour 1) twice; a node of momentum 0 with neighbours of
    momenta 0 and 1; the two states taken in both orders. *)
Definition same_call_twice : list (Euler.accumulate_call binary64) :=
  [edge 1 0 1 1; edge 1 0 1 1].
Definition node_at_rest : list (Euler.accumulate_call binary64) :=
  [edge 1 0 1 0; edge 1 0 1 1].
Definition both_orders : list (Euler.accumulate_call binary64) :=
  [edge 1 0 1 1; edge 1 1 1 0].

(** One call whose edge estimate is negative: momenta 0 and 4, edge
    coefficient 1. *)
Definition fast_neighbour : list (Euler.accumulate_call binary64) :=
  [ {| Euler.call_js := 0;
       Euler.call_U_i := [1; 0; 1];
       Euler.call_U_j := [1; 4; 1];
       Euler.call_scaled_c_ij := [1];
       Euler.call_beta_ij := 1 |} ].
End Double.

Module Mesh.
Local Open Scope float_scope.

(** A generator whose state counts the draws, and a marking routine that
    leaves the triangulation as it is: stand-ins for [std::mt19937_64] and
    for deal.II's [refine_and_coarsen_fixed_number]. *)
Definition distribution (g : nat) : binary64 * nat := (0, S g).

Definition refine_and_coarsen_fixed_number (triangulation : Adaptor.Triangulation)
    (indicators : list binary64) (refinement coarsening : binary64)
    : Adaptor.Triangulation :=
  triangulation.

Definition mark_cells :=
  Adaptor.mark_cells_for_coarsening_and_refinement
    distribution refine_and_coarsen_fixed_number.

(** The adaptor as its constructor leaves it, with time points [1] and
    [2], and the given strategies. *)
Definition adaptor (a : Adaptor.AdaptationStrategy)
    (m : Adaptor.MarkingStrategy) (s : Adaptor.TimePointSelectionStrategy)
    : Adaptor.MeshAdaptor binary64 nat :=
  {| Adaptor.adaptation_strategy_ := a;
     Adaptor.marking_strategy_ := m;
     Adaptor.time_point_selection_strategy_ := s;
     Adaptor.fixed_number_refinement_fraction_ := 0x1.3333333333333p-2;
     Adaptor.fixed_number_coarsening_fraction_ := 0x1.3333333333333p-2;
     Adaptor.adaptation_time_points_ := [1; 2];
     Adaptor.need_mesh_adaptation_ := false;
     Adaptor.mersenne_twister_ := 42%nat |}.

Definition unflagged : Adaptor.cell :=
  {| Adaptor.refine_flag := false; Adaptor.coarsen_flag := false |}.

Definition flagged : Adaptor.cell :=
  {| Adaptor.refine_flag := true; Adaptor.coarsen_flag := false |}.
End Mesh.

Module Exact.
Local Open Scope R_scope.

Definition view : Euler.HyperbolicSystemView R :=
  conserved_view 1 (fun _ => 0).

Definition limiter : Euler.Limiter R := constructed view (fun _ => (0, 0)) 0.

(** A call with two states of density [1.0] and momenta [m_i], [m_j],
    scaled edge coefficient [0.5] and weight [1.0]. *)
Definition edge (m_i m_j : R) : Euler.accumulate_call R :=
  {| Euler.call_js := 0;
     Euler.call_U_i := [1; m_i; 1];
     Euler.call_U_j := [1; m_j; 1];
     Euler.call_scaled_c_ij := [/ 2];
     Euler.call_beta_ij := 1 |}.

(** The density bounds after [reset(0)] and the given calls. *)
Definition density_bounds (calls : list (Euler.accumulate_call R)) : R * R :=
  let b := Euler.bounds_ (Euler.accumulate_all (Euler.reset limiter 0) calls) in
  (Euler.rho_min b, Euler.rho_max b).
End Exact.

(** ** The constructor of the mesh adaptor *)

Section MeshAdaptorConstructor.
Context {N : Type} `{Number N}.

Variable mt19937_64 : Type.

(** [mersenne_twister_.seed(s)]: the generator state that a seed gives. *)
Variable seed : nat -> mt19937_64.

(** The literal [0.3] in the number type. *)
Variable three_tenths : N.

(** The members as the constructor leaves them: the three default
    strategies, both fractions [0.3], no adaptation time point, the flag off,
    and, through [call_back()], the generator seeded with [42u]. *)
Definition MeshAdaptor_constructor : Adaptor.MeshAdaptor N mt19937_64 :=
  let adaptation_strategy_ := Adaptor.global_refinement in
  let marking_strategy_ := Adaptor.fixed_number in
  let time_point_selection_strategy_ := Adaptor.fixed_adaptation_time_points in
  let random_adaptation_mersenne_twister_seed_ := 42 in
  let fixed_number_refinement_fraction_ := three_tenths in
  let fixed_number_coarsening_fraction_ := three_tenths in
  {| Adaptor.adaptation_strategy_ := adaptation_strategy_;
     Adaptor.marking_strategy_ := marking_strategy_;
     Adaptor.time_point_selection_strategy_ := time_point_selection_strategy_;
     Adaptor.fixed_number_refinement_fraction_ :=
       fixed_number_refinement_fraction_;
     Adaptor.fixed_number_coarsening_fraction_ :=
       fixed_number_coarsening_fraction_;
     Adaptor.adaptation_time_points_ := [];
     Adaptor.need_mesh_adaptation_ := false;
     Adaptor.mersenne_twister_ :=
       seed random_adaptation_mersenne_twister_seed_ |}.
End MeshAdaptorConstructor.

(** ** Sums over a row, for stating what the accumulators hold *)

Definition Rsum (l : list R) : R := fold_right Rplus 0%R l.

(** The terms [beta_ij * (rho_i + rho_j)] of a row. *)
Definition weighted_densities (hs : Euler.HyperbolicSystemView R)
    (calls : list (Euler.accumulate_call R)) : list R :=
  map (fun c => (Euler.call_beta_ij c
                 * (Euler.density hs (Euler.call_U_i c)
                    + Euler.density hs (Euler.call_U_j c)))%R) calls.

(** The terms [|beta_ij|] of a row. *)
Definition absolute_weights (calls : list (Euler.accumulate_call R)) : list R :=
  map (fun c => Rabs (Euler.call_beta_ij c)) calls.

(** The state [(U_i + U_j) * 0.5] at which a call evaluates the specific
    entropy. *)
Definition midpoint_state {N : Type} `{Number N} (c : Euler.accumulate_call N)
    : Euler.state_type N :=
  tensor_scale (tensor_add (Euler.call_U_i c) (Euler.call_U_j c)) n_half.

(** ** What the spec says, for comparison with the code *)

(** [x ^ y] for [0 <= x] and [0 < y], with [0 ^ y = 0]. *)
Definition real_power (x y : R) : R :=
  if Req_dec_T x 0 then 0%R else Rpower x y.

(** The relaxation radius in the spec's words:
    [r = factor * cell_measure ^ (3 / (2 d))]. *)
Definition spec_relaxation_radius (d : nat) (cell_measure factor : R) : R :=
  (factor * real_power cell_measure (3 / (2 * INR d)))%R.

(** ** Exact arithmetic: the operations of [R_Number] *)

Section RealNumbers.
Local Open Scope R_scope.


Lemma Rltb_false (x y : R) : Rltb x y = false <-> y <= x.
Proof.
  unfold Rltb. destruct (Rlt_dec x y); split; intro; try lra; auto; discriminate.
Qed.

Lemma std_min_Rmin (a b : R) : std_min a b = Rmin a b.
Proof.
  unfold std_min, Rmin. simpl. unfold Rltb.
  destruct (Rlt_dec b a), (Rle_dec a b); lra.
Qed.

Lemma std_max_Rmax (a b : R) : std_max a b = Rmax a b.
Proof.
  unfold std_max, Rmax. simpl. unfold Rltb.
  destruct (Rlt_dec a b), (Rle_dec a b); lra.
Qed.

Lemma n_le_Rle (a b : R) : Euler.n_le a b = true <-> a <= b.
Proof.
  unfold Euler.n_le. simpl. rewrite negb_true_iff. apply Rltb_false.
Qed.

Lemma R_epsilon_pos : 0 < R_epsilon.
Proof.
  unfold R_epsilon. apply Rinv_0_lt_compat. apply IZR_lt. reflexivity.
Qed.

Lemma R_max_large : 1024 < R_max.
Proof. unfold R_max. apply IZR_lt. reflexivity. Qed.

Lemma R_max_pos : 0 < R_max.
Proof. pose proof R_max_large. lra. Qed.
End RealNumbers.

Create Rewrite HintDb limiter_R.
#[global] Hint Rewrite std_min_Rmin std_max_Rmax : limiter_R.

(** Unfolds the class operations at [R] and turns [std::min] / [std::max]
    into [Rmin] / [Rmax]. *)
Ltac to_reals :=
  autorewrite with limiter_R;
  cbn [n_zero n_one n_two n_half n_add n_sub n_mul n_div n_abs n_sqrt n_lt
       numeric_limits_max numeric_limits_epsilon R_Number] in *.

(** ** [reset] *)

Section Reset.
Context {N : Type} `{Number N}.

(** C5, as the code has it.  After [reset(i)] the bounds hold
    [rho_min = numeric_limits<ScalarNumber>::max()] (the largest finite
    number of the working precision), [rho_max = 0] and [s_min] = the
    precomputed specific entropy of node [i], and the three relaxation
    temporaries are zero; whatever the object held before. *)
Theorem reset_values (L : Euler.Limiter N) (i : nat) :
  Euler.bounds (Euler.reset L i)
  = {| Euler.rho_min := numeric_limits_max;
       Euler.rho_max := n_zero;
       Euler.s_min := fst (Euler.precomputed_values L i) |}
  /\ Euler.rho_relaxation_numerator (Euler.reset L i) = n_zero
  /\ Euler.rho_relaxation_denominator (Euler.reset L i) = n_zero
  /\ Euler.s_interp_max (Euler.reset L i) = n_zero.
Proof.
  unfold Euler.bounds, Euler.reset.
  destruct (Euler.precomputed_values L i) as [s_i eta_i].
  repeat split.
Qed.

Lemma reset_denominator (L : Euler.Limiter N) (i : nat) :
  Euler.rho_relaxation_denominator (Euler.reset L i) = n_zero.
Proof.
  unfold Euler.reset.
  destruct (Euler.precomputed_values L i); reflexivity.
Qed.

Lemma reset_bounds (L : Euler.Limiter N) (i : nat) :
  Euler.rho_min (Euler.bounds_ (Euler.reset L i)) = numeric_limits_max
  /\ Euler.rho_max (Euler.bounds_ (Euler.reset L i)) = n_zero.
Proof.
  unfold Euler.reset.
  destruct (Euler.precomputed_values L i); split; reflexivity.
Qed.

Lemma reset_keeps_system (L : Euler.Limiter N) (i : nat) :
  Euler.hyperbolic_system (Euler.reset L i) = Euler.hyperbolic_system L
  /\ Euler.precomputed_values (Euler.reset L i) = Euler.precomputed_values L.
Proof.
  unfold Euler.reset.
  destruct (Euler.precomputed_values L i); split; reflexivity.
Qed.
End Reset.

(** In double precision the initial [rho_min] is a finite number. *)
Example binary64_max_is_finite :
  PrimFloat.ltb (numeric_limits_max : binary64) infinity = true.
Proof. vm_compute. reflexivity. Qed.

(** C5, as the spec states it, fails: in double precision [rho_min] after
    [reset(0)] is not [+infinity]. *)
Lemma reset_rho_min_is_not_infinity :
  Euler.rho_min (Euler.bounds (Euler.reset Double.limiter 0)) <> infinity.
Proof.
  intro E.
  apply (f_equal (fun x => PrimFloat.ltb x infinity)) in E.
  vm_compute in E. discriminate E.
Qed.

(** ** [is_in_invariant_domain] *)

Section InvariantDomain.
Context {N : Type} `{Number N}.

(** The body is [AssertThrow(false, ExcNotImplemented())]: the call
    throws on every input and no boolean comes back. *)
Lemma is_in_invariant_domain_unfold (hs : Euler.HyperbolicSystemView N)
    (b : Euler.Bounds N) (U : Euler.state_type N) :
  Euler.is_in_invariant_domain hs b U = Throws ExcNotImplemented.
Proof. reflexivity. Qed.

(** C2, at the operation that breaks it.  For every input,
    [is_in_invariant_domain] raises an exception instead of returning. *)
Theorem is_in_invariant_domain_raises (hs : Euler.HyperbolicSystemView N)
    (b : Euler.Bounds N) (U : Euler.state_type N) :
  returns_normally (Euler.is_in_invariant_domain hs b U) = false
  /\ exists e, Euler.is_in_invariant_domain hs b U = Throws e.
Proof.
  rewrite is_in_invariant_domain_unfold. split.
  - reflexivity.
  - exists ExcNotImplemented. reflexivity.
Qed.
End InvariantDomain.

(** C1, at a state inside the invariant domain.  Density [1.0] lies in
    [[0.9, 1.1]] and the specific entropy [2.5] is at least [2.0], so the
    predicate of the spec is true there; the code does not return [true], it
    throws [ExcNotImplemented]. *)
Theorem is_in_invariant_domain_is_a_stub :
  Euler.in_invariant_domain
    Double.view Double.scenario_bounds Double.scenario_state = true
  /\ Euler.is_in_invariant_domain
       Double.view Double.scenario_bounds Double.scenario_state
     = Throws ExcNotImplemented
  /\ Euler.is_in_invariant_domain
       Double.view Double.scenario_bounds Double.scenario_state
     <> Returns true.
Proof.
  split; [vm_compute; reflexivity|].
  split; [reflexivity|].
  rewrite is_in_invariant_domain_unfold. discriminate.
Qed.

(** ** [apply_relaxation] *)

Section Relaxation.
Local Open Scope R_scope.

Lemma sqrt_as_power (x : R) : 0 < x -> sqrt x = Rpower x (/ 2).
Proof. intro Hx. symmetry. apply Rpower_sqrt. exact Hx. Qed.

Lemma cube_sqrt (x : R) :
  0 < x -> sqrt x * (sqrt x * sqrt x) = Rpower x (3 / 2).
Proof.
  intro Hx.
  rewrite sqrt_sqrt by lra.
  replace (3 / 2) with (/ 2 + 1) by field.
  rewrite Rpower_plus, Rpower_1 by exact Hx.
  rewrite sqrt_as_power by exact Hx. reflexivity.
Qed.

Lemma cube_sqrt_sqrt (x : R) :
  0 < x ->
  sqrt (sqrt x) * (sqrt (sqrt x) * sqrt (sqrt x)) = Rpower x (3 / 4).
Proof.
  intro Hx.
  assert (Hs : 0 < sqrt x) by (apply sqrt_lt_R0; exact Hx).
  rewrite cube_sqrt by exact Hs.
  rewrite (sqrt_as_power Hx), Rpower_mult.
  f_equal. field.
Qed.

(** The radius of the code is the closed form of the spec. *)
Lemma relaxation_radius_closed_form (dim : nat) (hd f : R) :
  (dim = 1 \/ dim = 2 \/ dim = 3)%nat ->
  0 <= hd ->
  Euler.relaxation_radius dim hd f = spec_relaxation_radius dim hd f.
Proof.
  intros Hdim Hhd.
  unfold Euler.relaxation_radius, spec_relaxation_radius, real_power,
    fixed_power_3.
  to_reals. rewrite Rmult_comm. f_equal.
  destruct (Req_dec_T hd 0) as [Hz | Hnz].
  - subst hd. rewrite sqrt_0.
    destruct Hdim as [-> | [-> | ->]]; simpl;
      rewrite ?sqrt_0; lra.
  - assert (Hpos : 0 < hd) by lra.
    destruct Hdim as [-> | [-> | ->]]; simpl Nat.eqb; cbv iota.
    + replace (3 / (2 * INR 1)) with (3 / 2) by (simpl; field).
      apply cube_sqrt. exact Hpos.
    + replace (3 / (2 * INR 2)) with (3 / 4) by (simpl; field).
      apply cube_sqrt_sqrt. exact Hpos.
    + replace (3 / (2 * INR 3)) with (/ 2) by (simpl; field).
      apply sqrt_as_power. exact Hpos.
Qed.

(** C3.  For [dim] in {1, 2, 3}, a cell measure [hd >= 0] and a factor
    [f], [apply_relaxation(hd, f)] uses the radius
    [r = f * hd ^ (3 / (2 dim))] and the magnitude
    [m = |numerator| / (|denominator| + eps)], [eps] the machine epsilon,
    and leaves the bounds
    [rho_min <- max ((1 - r) rho_min, rho_min - 2 m)],
    [rho_max <- min ((1 + r) rho_max, rho_max + 2 m)],
    [s_min <- max ((1 - r) s_min, 2 s_min - s_interp_max)]. *)
Theorem apply_relaxation_formulas (dim : nat) (L : Euler.Limiter R)
    (hd f : R) :
  (dim = 1 \/ dim = 2 \/ dim = 3)%nat ->
  0 <= hd ->
  let r := f * real_power hd (3 / (2 * INR dim)) in
  let m := Rabs (Euler.rho_relaxation_numerator L)
           / (Rabs (Euler.rho_relaxation_denominator L) + R_epsilon) in
  let b := Euler.bounds L in
  Euler.relaxation_radius dim hd f = r
  /\ Euler.rho_relaxation L = m
  /\ Euler.bounds (Euler.apply_relaxation dim L hd f)
     = {| Euler.rho_min :=
            Rmax ((1 - r) * Euler.rho_min b) (Euler.rho_min b - 2 * m);
          Euler.rho_max :=
            Rmin ((1 + r) * Euler.rho_max b) (Euler.rho_max b + 2 * m);
          Euler.s_min :=
            Rmax ((1 - r) * Euler.s_min b)
                 (2 * Euler.s_min b - Euler.s_interp_max L) |}.
Proof.
  intros Hdim Hhd r m b.
  assert (Hr : Euler.relaxation_radius dim hd f = r)
    by (apply relaxation_radius_closed_form; assumption).
  split; [exact Hr|]. split; [reflexivity|].
  unfold Euler.bounds, Euler.apply_relaxation. cbn [Euler.bounds_].
  rewrite Hr. to_reals. reflexivity.
Qed.

(** C3 at [dim = 2], [hd = 16], [f = 2]: the radius is
    [2 * 16 ^ (3/4)]. *)
Lemma apply_relaxation_formulas_witness :
  Euler.relaxation_radius 2 16 2 = 2 * real_power 16 (3 / (2 * INR 2)).
Proof.
  refine (proj1 (@apply_relaxation_formulas 2 Exact.limiter 16 2 _ _)).
  - right. left. reflexivity.
  - lra.
Defined.
End Relaxation.

(** *** The division of [apply_relaxation] *)

Section RelaxationDivisor.
Local Open Scope R_scope.

Lemma divisor_pos (L : Euler.Limiter R) : 0 < Euler.rho_relaxation_divisor L.
Proof.
  unfold Euler.rho_relaxation_divisor. to_reals.
  pose proof R_epsilon_pos.
  pose proof (Rabs_pos (Euler.rho_relaxation_denominator L)). lra.
Qed.

Lemma rho_relaxation_nonneg (L : Euler.Limiter R) :
  0 <= Euler.rho_relaxation L.
Proof.
  unfold Euler.rho_relaxation. to_reals.
  apply Rmult_le_pos.
  - apply Rabs_pos.
  - left. apply Rinv_0_lt_compat. apply divisor_pos.
Qed.

(** C10.  The divisor [|rho_relaxation_denominator| + eps] of
    [apply_relaxation] is strictly positive for every state of the
    limiter; right after [reset], before any [accumulate], it is [eps]
    itself.  So the quotient is a division by a nonzero number. *)
Theorem rho_relaxation_divisor_positive (L : Euler.Limiter R) :
  0 < Euler.rho_relaxation_divisor L
  /\ (forall i : nat,
        Euler.rho_relaxation_divisor (Euler.reset L i) = R_epsilon
        /\ 0 < Euler.rho_relaxation_divisor (Euler.reset L i))
  /\ Euler.rho_relaxation L
     = Rabs (Euler.rho_relaxation_numerator L)
       * / Euler.rho_relaxation_divisor L.
Proof.
  split; [apply divisor_pos|]. split; [|reflexivity].
  intro i. split; [|apply divisor_pos].
  unfold Euler.rho_relaxation_divisor.
  rewrite reset_denominator.
  to_reals. rewrite Rabs_R0. lra.
Qed.
End RelaxationDivisor.

(** The same divisor in double precision, with no [accumulate] call after
    [reset]: it is the machine epsilon [2^-52], which is positive. *)
Example binary64_divisor_after_reset :
  let L := Euler.reset Double.limiter 0 in
  Euler.rho_relaxation_divisor L = 0x1p-52%float
  /\ PrimFloat.ltb 0%float (Euler.rho_relaxation_divisor L) = true.
Proof. split; vm_compute; reflexivity. Qed.

(** ** [accumulate] *)

Section Accumulate.
Context {N : Type} `{Number N}.
Local Open Scope number_scope.

(** What one call leaves in each member. *)
Lemma accumulate_one_members (L : Euler.Limiter N) (c : Euler.accumulate_call N) :
  let hs := Euler.hyperbolic_system L in
  let b := Euler.bounds_ L in
  Euler.accumulate_one L c
  = {| Euler.hyperbolic_system := hs;
       Euler.precomputed_values := Euler.precomputed_values L;
       Euler.bounds_ :=
         {| Euler.rho_min := std_min (Euler.rho_min b) (Euler.rho_ij_bar hs c);
            Euler.rho_max := std_max (Euler.rho_max b) (Euler.rho_ij_bar hs c);
            Euler.s_min :=
              std_min (Euler.s_min b)
                      (fst (Euler.precomputed_values L (Euler.call_js c))) |};
       Euler.rho_relaxation_numerator :=
         Euler.rho_relaxation_numerator L
         + Euler.call_beta_ij c
           * (Euler.density hs (Euler.call_U_i c)
              + Euler.density hs (Euler.call_U_j c));
       Euler.rho_relaxation_denominator :=
         Euler.rho_relaxation_denominator L + n_abs (Euler.call_beta_ij c);
       Euler.s_interp_max :=
         std_max (Euler.s_interp_max L)
                 (Euler.specific_entropy hs
                    (tensor_scale
                       (tensor_add (Euler.call_U_i c) (Euler.call_U_j c))
                       n_half)) |}.
Proof.
  unfold Euler.accumulate_one, Euler.accumulate, Euler.rho_ij_bar.
  destruct (Euler.precomputed_values L (Euler.call_js c)) as [s_j eta_j].
  reflexivity.
Qed.

Lemma accumulate_all_snoc (L : Euler.Limiter N)
    (calls : list (Euler.accumulate_call N)) (c : Euler.accumulate_call N) :
  Euler.accumulate_all L (calls ++ [c])
  = Euler.accumulate_one (Euler.accumulate_all L calls) c.
Proof. unfold Euler.accumulate_all. rewrite fold_left_app. reflexivity. Qed.
End Accumulate.

(** ** Ordering of the relaxed density bounds *)

Section RelaxedBoundsOrder.
Local Open Scope R_scope.

Lemma relaxation_radius_nonneg (dim : nat) (hd f : R) :
  0 <= f -> 0 <= Euler.relaxation_radius dim hd f.
Proof.
  intro Hf. unfold Euler.relaxation_radius, fixed_power_3. to_reals.
  pose proof (sqrt_pos hd) as H1.
  pose proof (sqrt_pos (sqrt hd)) as H2.
  apply Rmult_le_pos; [|exact Hf].
  destruct (Nat.eqb dim 2); [|destruct (Nat.eqb dim 1)];
    repeat apply Rmult_le_pos; assumption.
Qed.

(** One call puts its edge estimate between the two density bounds. *)
Lemma accumulate_one_includes (L : Euler.Limiter R)
    (c : Euler.accumulate_call R) :
  let L' := Euler.accumulate_one L c in
  let bar := Euler.rho_ij_bar (Euler.hyperbolic_system L) c in
  Euler.rho_min (Euler.bounds_ L') = Rmin (Euler.rho_min (Euler.bounds_ L)) bar
  /\ Euler.rho_max (Euler.bounds_ L') = Rmax (Euler.rho_max (Euler.bounds_ L)) bar
  /\ Euler.rho_min (Euler.bounds_ L') <= bar <= Euler.rho_max (Euler.bounds_ L').
Proof.
  intros L' bar. subst L'. rewrite accumulate_one_members.
  cbn [Euler.bounds_ Euler.rho_min Euler.rho_max]. to_reals. fold bar.
  repeat split; [apply Rmin_r | apply Rmax_r].
Qed.

Lemma accumulated_bounds_ordered (L : Euler.Limiter R)
    (calls : list (Euler.accumulate_call R)) :
  calls <> [] ->
  Euler.rho_min (Euler.bounds_ (Euler.accumulate_all L calls))
  <= Euler.rho_max (Euler.bounds_ (Euler.accumulate_all L calls)).
Proof.
  intro Hne.
  destruct (exists_last Hne) as (calls' & c & ->).
  rewrite accumulate_all_snoc.
  destruct (accumulate_one_includes (Euler.accumulate_all L calls') c)
    as (_ & _ & Hlo & Hhi).
  lra.
Qed.

(** The widening step on nonnegative, ordered density bounds with a
    nonnegative radius: [rho_min] moves down and [rho_max] moves up. *)
Lemma apply_relaxation_widens (dim : nat) (L : Euler.Limiter R) (hd f : R) :
  0 <= f ->
  0 <= Euler.rho_min (Euler.bounds_ L) ->
  Euler.rho_min (Euler.bounds_ L) <= Euler.rho_max (Euler.bounds_ L) ->
  let b' := Euler.bounds (Euler.apply_relaxation dim L hd f) in
  Euler.rho_min b' <= Euler.rho_min (Euler.bounds_ L)
  /\ Euler.rho_max (Euler.bounds_ L) <= Euler.rho_max b'.
Proof.
  intros Hf Hmin Hord b'. subst b'.
  unfold Euler.bounds, Euler.apply_relaxation.
  cbn [Euler.bounds_ Euler.rho_min Euler.rho_max]. to_reals.
  pose proof (relaxation_radius_nonneg dim hd Hf) as Hr.
  pose proof (rho_relaxation_nonneg L) as Hm.
  set (r := Euler.relaxation_radius dim hd f) in *.
  set (m := Euler.rho_relaxation L) in *.
  split.
  - apply Rmax_lub; nra.
  - apply Rmin_glb; nra.
Qed.

Lemma accumulated_rho_max_nonneg (calls : list (Euler.accumulate_call R)) :
  forall L : Euler.Limiter R,
    0 <= Euler.rho_max (Euler.bounds_ L) ->
    0 <= Euler.rho_max (Euler.bounds_ (Euler.accumulate_all L calls)).
Proof.
  unfold Euler.accumulate_all.
  induction calls as [| c calls IH]; intros L HL; cbn [fold_left].
  - exact HL.
  - apply IH.
    destruct (accumulate_one_includes L c) as (_ & -> & _).
    pose proof (Rmax_l (Euler.rho_max (Euler.bounds_ L))
                  (Euler.rho_ij_bar (Euler.hyperbolic_system L) c)).
    lra.
Qed.

(** The relaxed density bounds stay ordered when the radius is nonnegative
    and either [rho_min] is nonnegative or the radius is at most one. *)
Lemma apply_relaxation_ordered (dim : nat) (L : Euler.Limiter R) (hd f : R) :
  0 <= f ->
  Euler.rho_min (Euler.bounds_ L) <= Euler.rho_max (Euler.bounds_ L) ->
  0 <= Euler.rho_max (Euler.bounds_ L) ->
  0 <= Euler.rho_min (Euler.bounds_ L) \/ Euler.relaxation_radius dim hd f <= 1 ->
  let b' := Euler.bounds (Euler.apply_relaxation dim L hd f) in
  Euler.rho_min b' <= Euler.rho_max b'.
Proof.
  intros Hf Hord Hmax Hsign b'.
  destruct (Rle_dec 0 (Euler.rho_min (Euler.bounds_ L))) as [Hmin | Hneg].
  - destruct (apply_relaxation_widens dim L hd Hf Hmin Hord) as [Hlo Hhi].
    fold b' in Hlo, Hhi. lra.
  - destruct Hsign as [Hmin | Hr1]; [contradiction|].
    subst b'. unfold Euler.bounds, Euler.apply_relaxation.
    cbn [Euler.bounds_ Euler.rho_min Euler.rho_max]. to_reals.
    pose proof (relaxation_radius_nonneg dim hd Hf) as Hr.
    pose proof (rho_relaxation_nonneg L) as Hm.
    set (r := Euler.relaxation_radius dim hd f) in *.
    set (m := Euler.rho_relaxation L) in *.
    apply Rle_trans with 0.
    + apply Rmax_lub; nra.
    + apply Rmin_glb; nra.
Qed.

(** C4, as the code has it.  After [reset(i)], one or more [accumulate]
    calls and [apply_relaxation(hd, f)] with [hd >= 0] and [f >= 0], if the
    accumulated [rho_min] is nonnegative (no edge density estimate was
    negative) or the relaxation radius is at most one, the relaxed bounds
    satisfy [rho_min <= rho_max]. *)
Theorem relaxed_bounds_ordered (dim : nat) (L : Euler.Limiter R) (i : nat)
    (calls : list (Euler.accumulate_call R)) (hd f : R) :
  calls <> [] ->
  0 <= hd ->
  0 <= f ->
  0 <= Euler.rho_min (Euler.bounds_ (Euler.accumulate_all (Euler.reset L i) calls))
  \/ Euler.relaxation_radius dim hd f <= 1 ->
  let b := Euler.stencil_bounds dim L i calls hd f in
  Euler.rho_min b <= Euler.rho_max b.
Proof.
  intros Hne Hhd Hf Hsign b. subst b. unfold Euler.stencil_bounds.
  apply apply_relaxation_ordered; try assumption.
  - apply accumulated_bounds_ordered. exact Hne.
  - apply accumulated_rho_max_nonneg.
    destruct (reset_bounds L i) as [_ ->]. to_reals. lra.
Qed.

(** With no [accumulate] call the relaxed bounds are the initial values of
    [reset]: [rho_min] the largest finite number, [rho_max] zero. *)
Lemma relaxed_bounds_of_empty_row (dim : nat) (L : Euler.Limiter R) (i : nat)
    (hd f : R) :
  0 <= f ->
  let b := Euler.stencil_bounds dim L i [] hd f in
  Euler.rho_min b = R_max /\ Euler.rho_max b = 0.
Proof.
  intros Hf b. subst b.
  unfold Euler.stencil_bounds, Euler.bounds, Euler.apply_relaxation.
  cbn [Euler.accumulate_all fold_left Euler.bounds_ Euler.rho_min Euler.rho_max].
  destruct (reset_bounds L i) as [-> ->].
  assert (Hm : Euler.rho_relaxation (Euler.reset L i) = 0).
  { unfold Euler.rho_relaxation, Euler.reset.
    destruct (Euler.precomputed_values L i).
    cbn [Euler.rho_relaxation_numerator]. to_reals.
    rewrite Rabs_R0. unfold Rdiv. apply Rmult_0_l. }
  rewrite Hm. to_reals.
  pose proof (relaxation_radius_nonneg dim hd Hf) as Hr.
  pose proof R_max_pos as HM.
  set (r := Euler.relaxation_radius dim hd f) in *.
  split.
  - rewrite Rmax_right; nra.
  - rewrite Rmin_left; lra.
Qed.
End RelaxedBoundsOrder.

(** Decides [Rmin] and [Rmax] of numbers that [lra] can compare. *)
Ltac decide_min_max :=
  pose proof R_max_large;
  repeat match goal with
         | |- context [Rmin ?a ?b] =>
             first [ rewrite (Rmin_left a b) by lra
                   | rewrite (Rmin_right a b) by lra ]
         | |- context [Rmax ?a ?b] =>
             first [ rewrite (Rmax_left a b) by lra
                   | rewrite (Rmax_right a b) by lra ]
         end.

Section RelaxedBoundsExamples.
Local Open Scope R_scope.

(** C4, as the spec states it, fails when no [accumulate] call is made:
    in dimension 1 with [hd = 1] and the default factor 2 the relaxed
    bounds are [rho_min = max()] and [rho_max = 0]. *)
Lemma relaxed_bounds_unordered_on_empty_row :
  ~ (Euler.rho_min (Euler.stencil_bounds 1 Exact.limiter 0 [] 1 2)
     <= Euler.rho_max (Euler.stencil_bounds 1 Exact.limiter 0 [] 1 2)).
Proof.
  assert (Hf : 0 <= 2) by lra.
  destruct (relaxed_bounds_of_empty_row 1 Exact.limiter 0 1 Hf) as [-> ->].
  pose proof R_max_pos. lra.
Qed.

(** One call, [hd = 1] and factor 2: the relaxed bounds are ordered. *)
Lemma relaxed_bounds_ordered_witness :
  Euler.rho_min (Euler.stencil_bounds 1 Exact.limiter 0 [Exact.edge 0 1] 1 2)
  <= Euler.rho_max (Euler.stencil_bounds 1 Exact.limiter 0 [Exact.edge 0 1] 1 2).
Proof.
  apply (@relaxed_bounds_ordered 1 Exact.limiter 0 [Exact.edge 0 1] 1 2).
  - discriminate.
  - lra.
  - lra.
  - left. cbn. to_reals. decide_min_max. lra.
Defined.
End RelaxedBoundsExamples.

(** The same empty row in double precision. *)
Example binary64_empty_row :
  Euler.stencil_bounds 1 Double.limiter 0 [] 1%float 2%float
  = {| Euler.rho_min := 0x1.fffffffffffffp+1023%float;
       Euler.rho_max := 0%float;
       Euler.s_min := 5%float |}.
Proof. vm_compute. reflexivity. Qed.

(** A negative edge estimate ([-1], from momenta 0 and 4 with edge
    coefficient 1) and a radius above one ([3]) also leave the relaxed
    bounds unordered, here [rho_min = 2] and [rho_max = 0]: the sign
    condition on [rho_min] or on the radius is needed. *)
Example binary64_negative_estimate :
  Euler.stencil_bounds 1 Double.limiter 0 Double.fast_neighbour 1%float 3%float
  = {| Euler.rho_min := 2%float;
       Euler.rho_max := 0%float;
       Euler.s_min := 2.5%float |}.
Proof. vm_compute. reflexivity. Qed.

(** ** The edge density estimate and the spec's one-dimensional scenario *)

Section EdgeEstimate.
Local Open Scope R_scope.

Lemma density_bounds_pair (a b : Euler.accumulate_call R) :
  Exact.density_bounds [a; b]
  = (Rmin (Rmin R_max (Euler.rho_ij_bar Exact.view a))
          (Euler.rho_ij_bar Exact.view b),
     Rmax (Rmax 0 (Euler.rho_ij_bar Exact.view a))
          (Euler.rho_ij_bar Exact.view b)).
Proof.
  unfold Exact.density_bounds.
  cbn [Euler.accumulate_all fold_left].
  rewrite !accumulate_one_members.
  cbn [Euler.bounds_ Euler.rho_min Euler.rho_max Euler.hyperbolic_system].
  to_reals. reflexivity.
Qed.

Lemma edge_estimate (m_i m_j : R) :
  Euler.rho_ij_bar Exact.view (Exact.edge m_i m_j)
  = / 2 * (1 + 1 + (m_i - m_j) * / 2).
Proof. reflexivity. Qed.

(** C6, as the spec states it, fails in both readings of its scenario.
    Two calls from a node of momentum 0 to a neighbour of momentum 1 leave
    [rho_max = 0.75]; and for no momentum [m_i] of the node do two
    neighbours of momenta 0 and 1 give the bounds [(0.75, 1.25)]: the two
    edge estimates are always [0.25] apart. *)
Lemma scenario_bounds_are_not_075_125 :
  Exact.density_bounds [Exact.edge 0 1; Exact.edge 0 1] = (3 / 4, 3 / 4)
  /\ Exact.density_bounds [Exact.edge 0 1; Exact.edge 0 1] <> (3 / 4, 5 / 4)
  /\ ~ (exists m_i : R,
          Exact.density_bounds [Exact.edge m_i 0; Exact.edge m_i 1]
          = (3 / 4, 5 / 4)).
Proof.
  assert (H1 : Exact.density_bounds [Exact.edge 0 1; Exact.edge 0 1]
               = (3 / 4, 3 / 4)).
  { rewrite density_bounds_pair, !edge_estimate.
    decide_min_max. f_equal; lra. }
  split; [exact H1|]. split.
  - rewrite H1. intro E. injection E as E. lra.
  - intros [m_i E].
    rewrite density_bounds_pair, !edge_estimate in E.
    injection E as Emin Emax.
    pose proof R_max_large.
    revert Emin Emax. unfold Rmin, Rmax.
    repeat match goal with
           | |- context [Rle_dec ?a ?b] => destruct (Rle_dec a b)
           end; intros; lra.
Qed.

(** C6, as the code has it.  Every [accumulate] call computes the edge
    estimate [1/2 (rho_i + rho_j + (m_i - m_j) . c_ij)] and widens
    [rho_min] and [rho_max] to include it.  In dimension 1 with all
    densities 1.0, edge coefficient 0.5 and weight 1.0, after [reset] and
    two calls: a node of momentum 0 with neighbours of momenta 0 and 1
    gets [rho_min = 0.75], [rho_max = 1.0]; the bounds [0.75] and [1.25]
    are those of two calls whose momentum differences [m_i - m_j] are
    [-1] and [+1]. *)
Theorem accumulate_edge_estimate :
  (forall (L : Euler.Limiter R) (c : Euler.accumulate_call R),
      let hs := Euler.hyperbolic_system L in
      let rho_bar :=
        / 2 * (Euler.density hs (Euler.call_U_i c)
               + Euler.density hs (Euler.call_U_j c)
               + contract (tensor_sub (Euler.momentum hs (Euler.call_U_i c))
                                      (Euler.momentum hs (Euler.call_U_j c)))
                          (Euler.call_scaled_c_ij c)) in
      let b := Euler.bounds_ L in
      let b' := Euler.bounds_ (Euler.accumulate_one L c) in
      Euler.rho_min b' = Rmin (Euler.rho_min b) rho_bar
      /\ Euler.rho_max b' = Rmax (Euler.rho_max b) rho_bar
      /\ Euler.rho_min b' <= rho_bar <= Euler.rho_max b'
      /\ Euler.rho_min b' <= Euler.rho_min b
      /\ Euler.rho_max b <= Euler.rho_max b')
  /\ Exact.density_bounds [Exact.edge 0 0; Exact.edge 0 1] = (3 / 4, 1)
  /\ Exact.density_bounds [Exact.edge 0 1; Exact.edge 1 0] = (3 / 4, 5 / 4).
Proof.
  split; [|split].
  - intros L c hs rho_bar b b'.
    destruct (accumulate_one_includes L c) as (Hmin & Hmax & Hin).
    change (Euler.rho_ij_bar (Euler.hyperbolic_system L) c) with rho_bar in *.
    fold b b' in Hmin, Hmax, Hin.
    repeat split; try tauto.
    + rewrite Hmin. apply Rmin_l.
    + rewrite Hmax. apply Rmax_l.
  - rewrite density_bounds_pair, !edge_estimate.
    decide_min_max. f_equal; lra.
  - rewrite density_bounds_pair, !edge_estimate.
    decide_min_max. f_equal; lra.
Qed.
End EdgeEstimate.

(** The three variants of the scenario in double precision; all the numbers
    involved are exact doubles. *)
Example binary64_scenario :
  Double.density_bounds Double.same_call_twice = (0.75, 0.75)%float
  /\ Double.density_bounds Double.node_at_rest = (0.75, 1)%float
  /\ Double.density_bounds Double.both_orders = (0.75, 1.25)%float.
Proof. repeat split; vm_compute; reflexivity. Qed.

(** ** The order of the [accumulate] calls *)

Section VisitingOrder.
Local Open Scope R_scope.

Lemma Rmin_swap (x a b : R) : Rmin (Rmin x a) b = Rmin (Rmin x b) a.
Proof.
  rewrite <- !Rmin_assoc. f_equal. apply Rmin_comm.
Qed.

Lemma Rmax_swap (x a b : R) : Rmax (Rmax x a) b = Rmax (Rmax x b) a.
Proof.
  rewrite <- !Rmax_assoc. f_equal. apply Rmax_comm.
Qed.

(** In exact arithmetic two calls commute. *)
Lemma accumulate_one_commutes (L : Euler.Limiter R)
    (a b : Euler.accumulate_call R) :
  Euler.accumulate_one (Euler.accumulate_one L a) b
  = Euler.accumulate_one (Euler.accumulate_one L b) a.
Proof.
  rewrite !accumulate_one_members.
  cbn [Euler.hyperbolic_system Euler.precomputed_values Euler.bounds_
       Euler.rho_min Euler.rho_max Euler.s_min
       Euler.rho_relaxation_numerator Euler.rho_relaxation_denominator
       Euler.s_interp_max].
  to_reals.
  f_equal; [f_equal| | |];
    first [apply Rmin_swap | apply Rmax_swap | ring].
Qed.

Lemma accumulate_all_permutation
    (calls1 calls2 : list (Euler.accumulate_call R)) :
  Permutation calls1 calls2 ->
  forall L : Euler.Limiter R,
    Euler.accumulate_all L calls1 = Euler.accumulate_all L calls2.
Proof.
  unfold Euler.accumulate_all.
  induction 1 as [| c l1 l2 _ IH | a b l | l1 l2 l3 _ IH12 _ IH23]; intro L.
  - reflexivity.
  - cbn [fold_left]. apply IH.
  - cbn [fold_left]. rewrite accumulate_one_commutes. reflexivity.
  - rewrite IH12. apply IH23.
Qed.

(** C8, as the code has it.  In exact arithmetic, two sequences of
    [accumulate] calls that are permutations of each other, after the same
    [reset], leave the same bounds and relaxation accumulators, and so the
    same bounds after [apply_relaxation]. *)
Theorem visiting_order_irrelevant_in_exact_arithmetic (dim : nat)
    (L : Euler.Limiter R) (i : nat)
    (calls1 calls2 : list (Euler.accumulate_call R)) (hd f : R) :
  Permutation calls1 calls2 ->
  Euler.accumulate_all (Euler.reset L i) calls1
  = Euler.accumulate_all (Euler.reset L i) calls2
  /\ Euler.stencil_bounds dim L i calls1 hd f
     = Euler.stencil_bounds dim L i calls2 hd f.
Proof.
  intro Hperm.
  pose proof (accumulate_all_permutation Hperm (Euler.reset L i)) as E.
  split; [exact E|].
  unfold Euler.stencil_bounds. rewrite E. reflexivity.
Qed.

(** Two calls in both orders. *)
Lemma visiting_order_irrelevant_witness :
  Euler.stencil_bounds 1 Exact.limiter 0 [Exact.edge 0 1; Exact.edge 1 0] 1 2
  = Euler.stencil_bounds 1 Exact.limiter 0 [Exact.edge 1 0; Exact.edge 0 1] 1 2.
Proof.
  apply (@visiting_order_irrelevant_in_exact_arithmetic 1 Exact.limiter 0
           [Exact.edge 0 1; Exact.edge 1 0] [Exact.edge 1 0; Exact.edge 0 1]
           1 2).
  apply perm_swap.
Defined.
End VisitingOrder.

(** C8, as the spec states it, fails in double precision.  A node of density
    1.0 visits neighbours of densities 1.1, 1.2 and 1.3 (all at rest, weight
    1.0) in ascending and in descending order.  The running sum
    [rho_relaxation_numerator] is rounded after each addition and ends as
    [6.6000000000000005] in one order and [6.5999999999999996] in the other;
    the bounds taken by [min] and [max] agree, but with [hd = 4] and factor 2
    the relaxed density bounds, which use the sum, differ too. *)
Lemma visiting_order_changes_the_sums :
  Permutation Double.row_ascending Double.row_descending
  /\ Euler.rho_relaxation_numerator (Double.accumulated Double.row_ascending)
     = 0x1.a666666666667p+2%float
  /\ Euler.rho_relaxation_numerator (Double.accumulated Double.row_descending)
     = 0x1.a666666666666p+2%float
  /\ Double.accumulated Double.row_ascending
     <> Double.accumulated Double.row_descending
  /\ Euler.bounds_ (Double.accumulated Double.row_ascending)
     = Euler.bounds_ (Double.accumulated Double.row_descending)
  /\ Double.relaxed_bounds Double.row_ascending
     = {| Euler.rho_min := (-0x1.acccccccccccep+1)%float;
          Euler.rho_max := 0x1.6333333333334p+2%float;
          Euler.s_min := 2.5%float |}
  /\ Double.relaxed_bounds Double.row_descending
     = {| Euler.rho_min := (-0x1.accccccccccccp+1)%float;
          Euler.rho_max := 0x1.6333333333332p+2%float;
          Euler.s_min := 2.5%float |}
  /\ Double.relaxed_bounds Double.row_ascending
     <> Double.relaxed_bounds Double.row_descending.
Proof.
  split; [apply (Permutation_rev Double.row_ascending)|].
  split; [vm_compute; reflexivity|].
  split; [vm_compute; reflexivity|].
  split.
  { intro E.
    apply (f_equal (fun L => PrimFloat.ltb 0x1.a666666666666p+2%float
                               (Euler.rho_relaxation_numerator L))) in E.
    vm_compute in E. discriminate E. }
  split; [vm_compute; reflexivity|].
  split; [vm_compute; reflexivity|].
  split; [vm_compute; reflexivity|].
  intro E.
  apply (f_equal (fun b => PrimFloat.ltb (Euler.rho_min b)
                             (-0x1.accccccccccccp+1)%float)) in E.
  vm_compute in E. discriminate E.
Qed.

(** ** The range of the limiter coefficient *)

Section LimitRange.
Local Open Scope R_scope.

Variable hs : Euler.HyperbolicSystemView R.
Variable pow_gamma_plus_1 : R -> R.
Variable newton_step : (R -> R) -> R -> R -> R.
Variable entropy_limiting : bool.

(** Step 1 leaves a sub-interval of [[t_min, t_max]]. *)
Lemma density_interval_nested (b : Euler.Bounds R) (U P : Euler.state_type R)
    (t_min t_max : R) :
  t_min <= t_max ->
  t_min <= fst (Euler.density_interval hs b U P t_min t_max)
  /\ fst (Euler.density_interval hs b U P t_min t_max)
     <= snd (Euler.density_interval hs b U P t_min t_max)
  /\ snd (Euler.density_interval hs b U P t_min t_max) <= t_max.
Proof.
  intro Hle. unfold Euler.density_interval.
  set (bnds := if (_ <? _)%num then _ else _).
  destruct bnds as [lo hi].
  to_reals.
  destruct (Rltb (Rmin t_max hi) (Rmax t_min lo)) eqn:E; cbn [fst snd].
  - lra.
  - apply Rltb_false in E.
    pose proof (Rmax_l t_min lo). pose proof (Rmin_l t_max hi). lra.
Qed.

(** Step 2 never leaves its bracket, whatever the Newton step proposes. *)
Lemma newton_in_bracket (psi : R -> R) (tolerance : R) (iterations : nat) :
  forall t_l t_r : R,
    t_l <= t_r ->
    t_l <= Euler.newton newton_step psi tolerance iterations t_l t_r <= t_r.
Proof.
  induction iterations as [| n IH]; intros t_l t_r Hle; cbn [Euler.newton].
  - lra.
  - set (t_n := newton_step psi t_l t_r).
    set (t := if (Euler.n_le t_l t_n && Euler.n_le t_n t_r)%bool
              then t_n else _).
    assert (Ht : t_l <= t <= t_r).
    { subst t.
      destruct (Euler.n_le t_l t_n && Euler.n_le t_n t_r)%bool eqn:E.
      - apply andb_true_iff in E. destruct E as [E1 E2].
        apply n_le_Rle in E1. apply n_le_Rle in E2. lra.
      - to_reals. lra. }
    clearbody t. to_reals.
    destruct (Rltb (psi t) 0);
      destruct (Rltb (Rabs (psi t)) tolerance); try lra.
    + assert (H' : t_l <= t) by lra. specialize (IH t_l t H'). lra.
    + assert (H' : t <= t_r) by lra. specialize (IH t t_r H'). lra.
Qed.

Lemma limit_unclamped_range (b : Euler.Bounds R) (U P : Euler.state_type R)
    (tolerance : R) (max_iterations : nat) (t_min t_max : R) :
  t_min <= t_max ->
  t_min
  <= Euler.limit_unclamped hs pow_gamma_plus_1 newton_step entropy_limiting
       b U P tolerance max_iterations t_min t_max
  <= t_max.
Proof.
  intro Hle. unfold Euler.limit_unclamped.
  destruct (density_interval_nested b U P Hle) as (H1 & H2 & H3).
  destruct (Euler.density_interval hs b U P t_min t_max) as [t_l t_r].
  cbn [fst snd] in *.
  destruct entropy_limiting; [|lra].
  destruct (Euler.n_le _ _); [lra|].
  pose proof (newton_in_bracket (Euler.Psi hs pow_gamma_plus_1 b U P)
                tolerance max_iterations H2).
  lra.
Qed.

(** C7.  For bounds, a state [U], a direction [P], a tolerance, an
    iteration budget and [t_min <= t_max], the coefficient that [limit]
    returns lies in [[t_min, t_max]]; the final clamp does not even have to
    move it. *)
Theorem limit_range (b : Euler.Bounds R) (U P : Euler.state_type R)
    (tolerance : R) (max_iterations : nat) (t_min t_max : R) :
  t_min <= t_max ->
  let t := fst (Euler.limit hs pow_gamma_plus_1 newton_step entropy_limiting
                  b U P tolerance max_iterations t_min t_max) in
  t_min <= t <= t_max
  /\ t = Euler.limit_unclamped hs pow_gamma_plus_1 newton_step
           entropy_limiting b U P tolerance max_iterations t_min t_max.
Proof.
  intros Hle t. subst t. unfold Euler.limit. cbn [fst].
  pose proof (limit_unclamped_range b U P tolerance max_iterations Hle) as Hr.
  set (u := Euler.limit_unclamped _ _ _ _ _ _ _ _ _ _ _) in *.
  to_reals.
  rewrite (Rmin_left u t_max) by lra.
  rewrite (Rmax_left u t_min) by lra.
  split; [lra | reflexivity].
Qed.
End LimitRange.

(** The default interval [[0, 1]], with a Newton step that
    proposes the point [2] outside of it. *)
Lemma limit_range_witness :
  (0 <= fst (Euler.limit Exact.view (fun rho => rho * rho * rho)
               (fun _ _ _ => 2) true
               {| Euler.rho_min := 0; Euler.rho_max := 2; Euler.s_min := 1 |}
               [1; 0; 1] [1; 0; 0] (/ 2) 3 0 1)
   <= 1)%R.
Proof.
  refine (proj1 (@limit_range Exact.view (fun rho => (rho * rho * rho)%R)
                   (fun _ _ _ => 2%R) true
                   {| Euler.rho_min := 0%R; Euler.rho_max := 2%R;
                      Euler.s_min := 1%R |}
                   [1; 0; 1]%R [1; 0; 0]%R (/ 2)%R 3 0%R 1%R _)).
  lra.
Defined.

(** ** Unrecognized strategies in the mesh adaptor *)

Section UnrecognizedStrategies.
Context {N : Type} `{Number N}.
Variable mt19937_64 : Type.
Variable distribution : mt19937_64 -> N * mt19937_64.
Variable refine_and_coarsen_fixed_number :
  Adaptor.Triangulation -> list N -> N -> N -> Adaptor.Triangulation.

Let MeshAdaptor : Type := Adaptor.MeshAdaptor N mt19937_64.
Let mark_cells : MeshAdaptor -> Adaptor.Triangulation
                 -> outcome (Adaptor.Triangulation * mt19937_64) :=
  Adaptor.mark_cells_for_coarsening_and_refinement
    distribution refine_and_coarsen_fixed_number.

Lemma analyze_unrecognized (A : MeshAdaptor) (t : N) (v : nat) :
  Adaptor.time_point_selection_strategy_ A
  = Adaptor.unrecognized_time_point_selection v ->
  Adaptor.analyze A t = Throws ExcInternalError.
Proof. intro E. unfold Adaptor.analyze. rewrite E. reflexivity. Qed.

Lemma mark_cells_unrecognized_adaptation (A : MeshAdaptor)
    (tria : Adaptor.Triangulation) (v : nat) :
  Adaptor.adaptation_strategy_ A = Adaptor.unrecognized_adaptation v ->
  mark_cells A tria = Throws ExcInternalError.
Proof.
  intro E.
  unfold mark_cells, Adaptor.mark_cells_for_coarsening_and_refinement,
    Adaptor.compute_indicators.
  rewrite E. reflexivity.
Qed.

Lemma mark_cells_unrecognized_marking (A : MeshAdaptor)
    (tria : Adaptor.Triangulation) (v : nat) :
  Adaptor.marking_strategy_ A = Adaptor.unrecognized_marking v ->
  Adaptor.adaptation_strategy_ A <> Adaptor.global_refinement ->
  mark_cells A tria = Throws ExcInternalError.
Proof.
  intros E Hng.
  unfold mark_cells, Adaptor.mark_cells_for_coarsening_and_refinement,
    Adaptor.compute_indicators.
  destruct (Adaptor.adaptation_strategy_ A) as [| | w].
  - contradiction Hng; reflexivity.
  - cbn [bind].
    destruct (Adaptor.generate distribution (length tria)
                (Adaptor.mersenne_twister_ A)) as [indicators g].
    rewrite E. reflexivity.
  - reflexivity.
Qed.

(** Global refinement returns from inside the first switch; the marking
    strategy is never looked at. *)
Lemma mark_cells_global_refinement (A : MeshAdaptor)
    (tria : Adaptor.Triangulation) :
  Adaptor.adaptation_strategy_ A = Adaptor.global_refinement ->
  mark_cells A tria
  = Returns (map Adaptor.set_refine_flag tria, Adaptor.mersenne_twister_ A).
Proof.
  intro E.
  unfold mark_cells, Adaptor.mark_cells_for_coarsening_and_refinement,
    Adaptor.compute_indicators.
  rewrite E. reflexivity.
Qed.

(** [prepare] has a [default:] branch that does nothing. *)
Lemma prepare_unrecognized (A : MeshAdaptor) (t : N) (v : nat) :
  Adaptor.time_point_selection_strategy_ A
  = Adaptor.unrecognized_time_point_selection v ->
  Adaptor.prepare A t
  = Adaptor.with_time_points A (Adaptor.adaptation_time_points_ A) false.
Proof. intro E. unfold Adaptor.prepare. rewrite E. reflexivity. Qed.

Lemma analyze_recognized (A : MeshAdaptor) (t : N) :
  Adaptor.time_point_selection_strategy_ A
  = Adaptor.fixed_adaptation_time_points ->
  returns_normally (Adaptor.analyze A t) = true.
Proof.
  intro E. unfold Adaptor.analyze. rewrite E.
  destruct (Adaptor.remove_past t (Adaptor.adaptation_time_points_ A)
              (Adaptor.need_mesh_adaptation_ A)).
  reflexivity.
Qed.

Lemma mark_cells_recognized (A : MeshAdaptor) (tria : Adaptor.Triangulation) :
  Adaptor.adaptation_strategy_ A = Adaptor.random_adaptation ->
  Adaptor.marking_strategy_ A = Adaptor.fixed_number ->
  returns_normally (mark_cells A tria) = true.
Proof.
  intros Ea Em.
  unfold mark_cells, Adaptor.mark_cells_for_coarsening_and_refinement,
    Adaptor.compute_indicators.
  rewrite Ea. cbn [bind].
  destruct (Adaptor.generate distribution (length tria)
              (Adaptor.mersenne_twister_ A)).
  rewrite Em. reflexivity.
Qed.

(** C9, as the code has it.  [analyze] throws [ExcInternalError] on an
    unrecognized time-point-selection strategy.
    [mark_cells_for_coarsening_and_refinement] throws it on an unrecognized
    adaptation strategy, and on an unrecognized marking strategy when the
    adaptation strategy is random adaptation; under global refinement it
    flags every cell for refinement and returns without looking at the
    marking strategy.  [prepare] does nothing about an unrecognized
    time-point-selection strategy: it keeps the time points, clears the
    adaptation flag and returns.  With recognized strategies both
    functions return. *)
Theorem unrecognized_strategies (A : MeshAdaptor)
    (tria : Adaptor.Triangulation) (t : N) :
  match Adaptor.time_point_selection_strategy_ A with
  | Adaptor.unrecognized_time_point_selection _ =>
      Adaptor.analyze A t = Throws ExcInternalError
      /\ Adaptor.prepare A t
         = Adaptor.with_time_points A (Adaptor.adaptation_time_points_ A) false
  | Adaptor.fixed_adaptation_time_points =>
      returns_normally (Adaptor.analyze A t) = true
  end
  /\ match Adaptor.adaptation_strategy_ A, Adaptor.marking_strategy_ A with
     | Adaptor.unrecognized_adaptation _, _ =>
         mark_cells A tria = Throws ExcInternalError
     | Adaptor.random_adaptation, Adaptor.unrecognized_marking _ =>
         mark_cells A tria = Throws ExcInternalError
     | Adaptor.random_adaptation, Adaptor.fixed_number =>
         returns_normally (mark_cells A tria) = true
     | Adaptor.global_refinement, _ =>
         mark_cells A tria
         = Returns (map Adaptor.set_refine_flag tria,
                    Adaptor.mersenne_twister_ A)
     end.
Proof.
  split.
  - destruct (Adaptor.time_point_selection_strategy_ A) as [| v] eqn:E.
    + exact (analyze_recognized A t E).
    + split.
      * exact (analyze_unrecognized A t E).
      * exact (prepare_unrecognized A t E).
  - destruct (Adaptor.adaptation_strategy_ A) as [| | v] eqn:Ea.
    + exact (mark_cells_global_refinement A tria Ea).
    + destruct (Adaptor.marking_strategy_ A) as [| w] eqn:Em.
      * exact (mark_cells_recognized A tria Ea Em).
      * apply (mark_cells_unrecognized_marking A tria Em).
        rewrite Ea. discriminate.
    + exact (mark_cells_unrecognized_adaptation A tria Ea).
Qed.
End UnrecognizedStrategies.

(** C9, as the spec states it, fails.  Under global refinement, an
    unrecognized marking strategy (the value 7) goes unnoticed: both cells
    come back flagged for refinement.  And [prepare] with an unrecognized
    time-point-selection strategy returns, having kept both time points. *)
Lemma unrecognized_strategy_goes_unnoticed :
  Mesh.mark_cells
    (Mesh.adaptor Adaptor.global_refinement (Adaptor.unrecognized_marking 7)
                  Adaptor.fixed_adaptation_time_points)
    [Mesh.unflagged; Mesh.unflagged]
  = Returns ([Mesh.flagged; Mesh.flagged], 42)
  /\ Adaptor.adaptation_time_points_
       (Adaptor.prepare
          (Mesh.adaptor Adaptor.global_refinement Adaptor.fixed_number
                        (Adaptor.unrecognized_time_point_selection 7))
          3%float)
     = [1%float; 2%float].
Proof. split; reflexivity. Qed.

(** With the recognized strategy [prepare] at time [3] drops both time
    points, which lie in the past. *)
Example prepare_drops_outdated_time_points :
  Adaptor.adaptation_time_points_
    (Adaptor.prepare
       (Mesh.adaptor Adaptor.global_refinement Adaptor.fixed_number
                     Adaptor.fixed_adaptation_time_points)
       3%float)
  = [].
Proof. vm_compute. reflexivity. Qed.

(** * Further properties of the limiter *)

(** ** What a node leaves behind for the next one *)

Section LimiterHistory.
Context {N : Type} `{Number N}.

Lemma accumulate_all_keeps_system (calls : list (Euler.accumulate_call N)) :
  forall L : Euler.Limiter N,
    Euler.hyperbolic_system (Euler.accumulate_all L calls)
    = Euler.hyperbolic_system L
    /\ Euler.precomputed_values (Euler.accumulate_all L calls)
       = Euler.precomputed_values L.
Proof.
  unfold Euler.accumulate_all.
  induction calls as [| c calls IH]; intro L; cbn [fold_left].
  - split; reflexivity.
  - destruct (IH (Euler.accumulate_one L c)) as [-> ->].
    rewrite accumulate_one_members. split; reflexivity.
Qed.

Lemma reset_depends_on_system (L L' : Euler.Limiter N) (i : nat) :
  Euler.hyperbolic_system L' = Euler.hyperbolic_system L ->
  Euler.precomputed_values L' = Euler.precomputed_values L ->
  Euler.reset L' i = Euler.reset L i.
Proof.
  intros Ehs Epre. unfold Euler.reset. rewrite Ehs, Epre. reflexivity.
Qed.

(** [reset] wipes everything a node's loop has written: after any sequence
    of [accumulate] calls, with or without [apply_relaxation], [reset(i)]
    gives the state that [reset(i)] gives on the untouched object.  This
    holds for every number type, doubles included. *)
Theorem reset_forgets_history (dim : nat) (L : Euler.Limiter N)
    (calls : list (Euler.accumulate_call N)) (hd f : N) (i : nat) :
  Euler.reset (Euler.accumulate_all L calls) i = Euler.reset L i
  /\ Euler.reset (Euler.apply_relaxation dim (Euler.accumulate_all L calls) hd f) i
     = Euler.reset L i.
Proof.
  destruct (accumulate_all_keeps_system calls L) as [Ehs Epre].
  split; apply reset_depends_on_system;
    cbn [Euler.apply_relaxation Euler.hyperbolic_system
         Euler.precomputed_values]; assumption.
Qed.

Lemma std_min_cases (a b : N) : std_min a b = a \/ std_min a b = b.
Proof. unfold std_min. destruct (n_lt b a); auto. Qed.

Lemma std_max_cases (a b : N) : std_max a b = a \/ std_max a b = b.
Proof. unfold std_max. destruct (n_lt a b); auto. Qed.

(** Each of the four running extrema is its starting value or the value
    that one of the calls contributed. *)
Lemma accumulate_all_selects (calls : list (Euler.accumulate_call N))
    (L : Euler.Limiter N) :
  let hs := Euler.hyperbolic_system L in
  let L' := Euler.accumulate_all L calls in
  (Euler.rho_min (Euler.bounds_ L') = Euler.rho_min (Euler.bounds_ L)
   \/ exists c, In c calls
                /\ Euler.rho_min (Euler.bounds_ L') = Euler.rho_ij_bar hs c)
  /\ (Euler.rho_max (Euler.bounds_ L') = Euler.rho_max (Euler.bounds_ L)
      \/ exists c, In c calls
                   /\ Euler.rho_max (Euler.bounds_ L') = Euler.rho_ij_bar hs c)
  /\ (Euler.s_min (Euler.bounds_ L') = Euler.s_min (Euler.bounds_ L)
      \/ exists c, In c calls
                   /\ Euler.s_min (Euler.bounds_ L')
                      = fst (Euler.precomputed_values L (Euler.call_js c)))
  /\ (Euler.s_interp_max L' = Euler.s_interp_max L
      \/ exists c, In c calls
                   /\ Euler.s_interp_max L'
                      = Euler.specific_entropy hs (midpoint_state c)).
Proof.
  intros hs L'. subst L'.
  induction calls as [| c calls IH] using rev_ind.
  - cbn. repeat split; left; reflexivity.
  - rewrite accumulate_all_snoc, accumulate_one_members.
    destruct (accumulate_all_keeps_system calls L) as [-> ->]. fold hs.
    cbn [Euler.bounds_ Euler.rho_min Euler.rho_max Euler.s_min
         Euler.s_interp_max].
    destruct IH as (Hmin & Hmax & Hs & Hi).
    assert (Hin : forall (P : Euler.accumulate_call N -> Prop),
               (exists d, In d calls /\ P d) ->
               exists d, In d (calls ++ [c]) /\ P d).
    { intros P [d [Hd HP]]. exists d. split; [|exact HP].
      apply in_or_app. left. exact Hd. }
    assert (Hlast : In c (calls ++ [c]))
      by (apply in_or_app; right; left; reflexivity).
    repeat split.
    + destruct (std_min_cases
                  (Euler.rho_min (Euler.bounds_ (Euler.accumulate_all L calls)))
                  (Euler.rho_ij_bar hs c)) as [-> | ->].
      * destruct Hmin as [-> | Hex]; [left; reflexivity | right].
        apply Hin in Hex. exact Hex.
      * right. exists c. split; [exact Hlast | reflexivity].
    + destruct (std_max_cases
                  (Euler.rho_max (Euler.bounds_ (Euler.accumulate_all L calls)))
                  (Euler.rho_ij_bar hs c)) as [-> | ->].
      * destruct Hmax as [-> | Hex]; [left; reflexivity | right].
        apply Hin in Hex. exact Hex.
      * right. exists c. split; [exact Hlast | reflexivity].
    + destruct (std_min_cases
                  (Euler.s_min (Euler.bounds_ (Euler.accumulate_all L calls)))
                  (fst (Euler.precomputed_values L (Euler.call_js c))))
        as [-> | ->].
      * destruct Hs as [-> | Hex]; [left; reflexivity | right].
        apply Hin in Hex. exact Hex.
      * right. exists c. split; [exact Hlast | reflexivity].
    + unfold midpoint_state in *.
      destruct (std_max_cases
                  (Euler.s_interp_max (Euler.accumulate_all L calls))
                  (Euler.specific_entropy hs
                     (tensor_scale
                        (tensor_add (Euler.call_U_i c) (Euler.call_U_j c))
                        n_half))) as [-> | ->].
      * destruct Hi as [-> | Hex]; [left; reflexivity | right].
        apply Hin in Hex. exact Hex.
      * right. exists c. split; [exact Hlast | reflexivity].
Qed.

(** After [reset(i)] and any row, each bound is either the value [reset]
    wrote or a value that one call of the row contributed: [rho_min] is
    [max()] or an edge estimate, [rho_max] is zero or an edge estimate,
    [s_min] is the entropy of node [i] or of a neighbour, and [s_interp_max]
    is zero or a midpoint entropy.  Nothing is interpolated or invented; this
    holds for every number type, doubles included. *)
Theorem bounds_are_sentinels_or_contributions (L : Euler.Limiter N) (i : nat)
    (calls : list (Euler.accumulate_call N)) :
  let hs := Euler.hyperbolic_system L in
  let L' := Euler.accumulate_all (Euler.reset L i) calls in
  (Euler.rho_min (Euler.bounds_ L') = numeric_limits_max
   \/ exists c, In c calls
                /\ Euler.rho_min (Euler.bounds_ L') = Euler.rho_ij_bar hs c)
  /\ (Euler.rho_max (Euler.bounds_ L') = n_zero
      \/ exists c, In c calls
                   /\ Euler.rho_max (Euler.bounds_ L') = Euler.rho_ij_bar hs c)
  /\ (Euler.s_min (Euler.bounds_ L') = fst (Euler.precomputed_values L i)
      \/ exists c, In c calls
                   /\ Euler.s_min (Euler.bounds_ L')
                      = fst (Euler.precomputed_values L (Euler.call_js c)))
  /\ (Euler.s_interp_max L' = n_zero
      \/ exists c, In c calls
                   /\ Euler.s_interp_max L'
                      = Euler.specific_entropy hs (midpoint_state c)).
Proof.
  intros hs L'. subst hs L'.
  pose proof (accumulate_all_selects calls (Euler.reset L i)) as Hsel.
  destruct (reset_keeps_system L i) as [Rhs Rpre].
  rewrite Rhs, Rpre in Hsel.
  cbv zeta in Hsel.
  assert (E : Euler.bounds_ (Euler.reset L i)
              = {| Euler.rho_min := numeric_limits_max;
                   Euler.rho_max := n_zero;
                   Euler.s_min := fst (Euler.precomputed_values L i) |}
              /\ Euler.s_interp_max (Euler.reset L i) = n_zero).
  { unfold Euler.reset. destruct (Euler.precomputed_values L i).
    split; reflexivity. }
  destruct E as [Eb Ei]. rewrite Eb, Ei in Hsel.
  exact Hsel.
Qed.
End LimiterHistory.

(** ** The accumulated bounds in exact arithmetic *)

Section AccumulatedBounds.
Local Open Scope R_scope.

(** One call moves each member in one direction only. *)
Lemma accumulate_one_monotone (L : Euler.Limiter R)
    (c : Euler.accumulate_call R) :
  let L' := Euler.accumulate_one L c in
  Euler.rho_min (Euler.bounds_ L') <= Euler.rho_min (Euler.bounds_ L)
  /\ Euler.rho_max (Euler.bounds_ L) <= Euler.rho_max (Euler.bounds_ L')
  /\ Euler.s_min (Euler.bounds_ L') <= Euler.s_min (Euler.bounds_ L)
  /\ Euler.s_interp_max L <= Euler.s_interp_max L'
  /\ Euler.rho_relaxation_denominator L <= Euler.rho_relaxation_denominator L'.
Proof.
  intro L'. subst L'. rewrite accumulate_one_members.
  cbn [Euler.bounds_ Euler.rho_min Euler.rho_max Euler.s_min
       Euler.s_interp_max Euler.rho_relaxation_denominator].
  to_reals.
  pose proof (Rabs_pos (Euler.call_beta_ij c)).
  repeat split;
    first [apply Rmin_l | apply Rmax_l | lra].
Qed.

Lemma accumulate_all_monotone (calls : list (Euler.accumulate_call R)) :
  forall L : Euler.Limiter R,
    let L' := Euler.accumulate_all L calls in
    Euler.rho_min (Euler.bounds_ L') <= Euler.rho_min (Euler.bounds_ L)
    /\ Euler.rho_max (Euler.bounds_ L) <= Euler.rho_max (Euler.bounds_ L')
    /\ Euler.s_min (Euler.bounds_ L') <= Euler.s_min (Euler.bounds_ L)
    /\ Euler.s_interp_max L <= Euler.s_interp_max L'
    /\ Euler.rho_relaxation_denominator L
       <= Euler.rho_relaxation_denominator L'.
Proof.
  unfold Euler.accumulate_all.
  induction calls as [| c calls IH]; intro L; cbn [fold_left].
  - cbv zeta. repeat split; lra.
  - specialize (IH (Euler.accumulate_one L c)). cbv zeta in IH.
    destruct IH as (H1 & H2 & H3 & H4 & H5).
    destruct (accumulate_one_monotone L c) as (G1 & G2 & G3 & G4 & G5).
    cbv zeta. repeat split; lra.
Qed.

Lemma accumulate_one_system (L : Euler.Limiter R) (c : Euler.accumulate_call R) :
  Euler.hyperbolic_system (Euler.accumulate_one L c) = Euler.hyperbolic_system L
  /\ Euler.precomputed_values (Euler.accumulate_one L c)
     = Euler.precomputed_values L.
Proof. rewrite accumulate_one_members. split; reflexivity. Qed.

Lemma accumulate_one_entropies (L : Euler.Limiter R)
    (c : Euler.accumulate_call R) :
  Euler.s_min (Euler.bounds_ (Euler.accumulate_one L c))
  = Rmin (Euler.s_min (Euler.bounds_ L))
         (fst (Euler.precomputed_values L (Euler.call_js c)))
  /\ Euler.s_interp_max (Euler.accumulate_one L c)
     = Rmax (Euler.s_interp_max L)
            (Euler.specific_entropy (Euler.hyperbolic_system L)
               (midpoint_state c)).
Proof.
  rewrite accumulate_one_members.
  cbn [Euler.bounds_ Euler.s_min Euler.s_interp_max].
  unfold midpoint_state. to_reals. split; reflexivity.
Qed.

Lemma accumulate_all_encloses (calls : list (Euler.accumulate_call R)) :
  forall L : Euler.Limiter R,
    let L' := Euler.accumulate_all L calls in
    Forall (fun c =>
              Euler.rho_min (Euler.bounds_ L')
              <= Euler.rho_ij_bar (Euler.hyperbolic_system L) c
              <= Euler.rho_max (Euler.bounds_ L')) calls.
Proof.
  induction calls as [| c calls IH]; intro L; cbv zeta.
  - constructor.
  - change (Euler.accumulate_all L (c :: calls))
      with (Euler.accumulate_all (Euler.accumulate_one L c) calls).
    constructor.
    + destruct (accumulate_one_includes L c) as (_ & _ & Hlo & Hhi).
      destruct (accumulate_all_monotone calls (Euler.accumulate_one L c))
        as (H1 & H2 & _).
      lra.
    + specialize (IH (Euler.accumulate_one L c)). cbv zeta in IH.
      destruct (accumulate_one_system L c) as [Ehs _].
      rewrite Ehs in IH. exact IH.
Qed.

(** After [reset(i)] and a row of [accumulate] calls, every edge density
    estimate of the row lies between [rho_min] and [rho_max], [rho_max] is
    not negative, and [rho_min] is at most the largest finite number. *)
Theorem row_estimates_enclosed (L : Euler.Limiter R) (i : nat)
    (calls : list (Euler.accumulate_call R)) :
  let b := Euler.bounds_ (Euler.accumulate_all (Euler.reset L i) calls) in
  Forall (fun c =>
            Euler.rho_min b
            <= Euler.rho_ij_bar (Euler.hyperbolic_system L) c
            <= Euler.rho_max b) calls
  /\ 0 <= Euler.rho_max b
  /\ Euler.rho_min b <= R_max.
Proof.
  intro b. subst b.
  pose proof (accumulate_all_encloses calls (Euler.reset L i)) as Henc.
  cbv zeta in Henc.
  destruct (reset_keeps_system L i) as [Rhs _]. rewrite Rhs in Henc.
  destruct (accumulate_all_monotone calls (Euler.reset L i)) as (H1 & H2 & _).
  destruct (reset_bounds L i) as [Emin Emax].
  rewrite Emin in H1. rewrite Emax in H2. to_reals.
  split; [exact Henc|]. split; assumption.
Qed.

(** After [reset(i)] and a row of [accumulate] calls, [s_min] is at most
    the precomputed entropy of node [i] and of every neighbour [js] of the
    row, and [s_interp_max] is at least every midpoint entropy of the row and
    never negative, even when all of them are. *)
Theorem row_entropies_bounded (L : Euler.Limiter R) (i : nat)
    (calls : list (Euler.accumulate_call R)) :
  let L' := Euler.accumulate_all (Euler.reset L i) calls in
  Euler.s_min (Euler.bounds_ L') <= fst (Euler.precomputed_values L i)
  /\ Forall (fun c =>
               Euler.s_min (Euler.bounds_ L')
               <= fst (Euler.precomputed_values L (Euler.call_js c))) calls
  /\ 0 <= Euler.s_interp_max L'
  /\ Forall (fun c =>
               Euler.specific_entropy (Euler.hyperbolic_system L)
                 (midpoint_state c)
               <= Euler.s_interp_max L') calls.
Proof.
  intro L'. subst L'.
  assert (Hgen : forall (cs : list (Euler.accumulate_call R))
                        (M : Euler.Limiter R),
             Forall (fun c =>
                       Euler.s_min (Euler.bounds_ (Euler.accumulate_all M cs))
                       <= fst (Euler.precomputed_values M (Euler.call_js c))
                       /\ Euler.specific_entropy (Euler.hyperbolic_system M)
                            (midpoint_state c)
                          <= Euler.s_interp_max (Euler.accumulate_all M cs))
                    cs).
  { induction cs as [| c cs IH]; intro M.
    - constructor.
    - change (Euler.accumulate_all M (c :: cs))
        with (Euler.accumulate_all (Euler.accumulate_one M c) cs).
      constructor.
      + destruct (accumulate_all_monotone cs (Euler.accumulate_one M c))
          as (_ & _ & H3 & H4 & _).
        destruct (accumulate_one_entropies M c) as [Es Ei].
        rewrite Es in H3. rewrite Ei in H4.
        pose proof (Rmin_r (Euler.s_min (Euler.bounds_ M))
                      (fst (Euler.precomputed_values M (Euler.call_js c)))).
        pose proof (Rmax_r (Euler.s_interp_max M)
                      (Euler.specific_entropy (Euler.hyperbolic_system M)
                         (midpoint_state c))).
        split; lra.
      + specialize (IH (Euler.accumulate_one M c)).
        destruct (accumulate_one_system M c) as [Ehs Epre].
        rewrite Ehs, Epre in IH. exact IH. }
  specialize (Hgen calls (Euler.reset L i)).
  destruct (reset_keeps_system L i) as [Rhs Rpre]. rewrite Rhs, Rpre in Hgen.
  destruct (accumulate_all_monotone calls (Euler.reset L i))
    as (_ & _ & H3 & H4 & _).
  assert (E : Euler.s_min (Euler.bounds_ (Euler.reset L i))
              = fst (Euler.precomputed_values L i)
              /\ Euler.s_interp_max (Euler.reset L i) = 0).
  { unfold Euler.reset. destruct (Euler.precomputed_values L i).
    split; reflexivity. }
  destruct E as [Es Ei]. rewrite Es in H3. rewrite Ei in H4.
  split; [exact H3|].
  split; [eapply Forall_impl; [|exact Hgen]; cbv beta; tauto|].
  split; [exact H4|].
  eapply Forall_impl; [|exact Hgen]; cbv beta; tauto.
Qed.
End AccumulatedBounds.

(** ** The relaxation sums *)

Section RelaxationSums.
Local Open Scope R_scope.

Lemma accumulate_all_sums (calls : list (Euler.accumulate_call R)) :
  forall L : Euler.Limiter R,
    Euler.rho_relaxation_numerator (Euler.accumulate_all L calls)
    = Euler.rho_relaxation_numerator L
      + Rsum (weighted_densities (Euler.hyperbolic_system L) calls)
    /\ Euler.rho_relaxation_denominator (Euler.accumulate_all L calls)
       = Euler.rho_relaxation_denominator L + Rsum (absolute_weights calls).
Proof.
  unfold Euler.accumulate_all.
  induction calls as [| c calls IH]; intro L; cbn [fold_left].
  - cbn. split; lra.
  - destruct (IH (Euler.accumulate_one L c)) as [-> ->].
    destruct (accumulate_one_system L c) as [-> _].
    rewrite accumulate_one_members.
    cbn [Euler.rho_relaxation_numerator Euler.rho_relaxation_denominator
         weighted_densities absolute_weights map Rsum fold_right].
    to_reals.
    fold (weighted_densities (Euler.hyperbolic_system L) calls).
    fold (absolute_weights calls).
    fold (Rsum (weighted_densities (Euler.hyperbolic_system L) calls)).
    fold (Rsum (absolute_weights calls)).
    split; lra.
Qed.

Lemma Rsum_absolute_weights_nonneg (calls : list (Euler.accumulate_call R)) :
  0 <= Rsum (absolute_weights calls).
Proof.
  induction calls as [| c calls IH]; cbn.
  - lra.
  - pose proof (Rabs_pos (Euler.call_beta_ij c)).
    change (fold_right Rplus 0 (map (fun c0 => Rabs (Euler.call_beta_ij c0)) calls))
      with (Rsum (absolute_weights calls)).
    lra.
Qed.

Lemma Rsum_weighted_bound (hs : Euler.HyperbolicSystemView R)
    (calls : list (Euler.accumulate_call R)) (S : R) :
  Forall (fun c =>
            Rabs (Euler.density hs (Euler.call_U_i c)
                  + Euler.density hs (Euler.call_U_j c)) <= S) calls ->
  Rabs (Rsum (weighted_densities hs calls)) <= S * Rsum (absolute_weights calls).
Proof.
  induction 1 as [| c calls Hc _ IH]; cbn.
  - rewrite Rabs_R0. lra.
  - change (fold_right Rplus 0 (map (fun c0 => Rabs (Euler.call_beta_ij c0)) calls))
      with (Rsum (absolute_weights calls)).
    match goal with
    | |- Rabs (?t + ?rest) <= _ =>
        change rest with (Rsum (weighted_densities hs calls));
        pose proof (Rabs_triang t (Rsum (weighted_densities hs calls))) as Htri
    end.
    rewrite Rabs_mult in Htri.
    pose proof (Rabs_pos (Euler.call_beta_ij c)) as Hb.
    assert (Rabs (Euler.call_beta_ij c)
            * Rabs (Euler.density hs (Euler.call_U_i c)
                    + Euler.density hs (Euler.call_U_j c))
            <= Rabs (Euler.call_beta_ij c) * S)
      by (apply Rmult_le_compat_l; assumption).
    lra.
Qed.

(** After [reset(i)] and a row of [accumulate] calls, the numerator is the
    sum of the terms [beta_ij (rho_i + rho_j)] of the row, and the
    denominator is the sum of the [|beta_ij|], so it is never negative. *)
Theorem row_sums (L : Euler.Limiter R) (i : nat)
    (calls : list (Euler.accumulate_call R)) :
  let L' := Euler.accumulate_all (Euler.reset L i) calls in
  Euler.rho_relaxation_numerator L'
  = Rsum (weighted_densities (Euler.hyperbolic_system L) calls)
  /\ Euler.rho_relaxation_denominator L' = Rsum (absolute_weights calls)
  /\ 0 <= Euler.rho_relaxation_denominator L'.
Proof.
  intro L'. subst L'.
  destruct (accumulate_all_sums calls (Euler.reset L i)) as [En Ed].
  destruct (reset_keeps_system L i) as [Rhs _]. rewrite Rhs in En.
  assert (E0 : Euler.rho_relaxation_numerator (Euler.reset L i) = 0
               /\ Euler.rho_relaxation_denominator (Euler.reset L i) = 0).
  { unfold Euler.reset. destruct (Euler.precomputed_values L i).
    split; reflexivity. }
  destruct E0 as [E1 E2]. rewrite E1 in En. rewrite E2 in Ed.
  rewrite En, Ed.
  pose proof (Rsum_absolute_weights_nonneg calls).
  repeat split; lra.
Qed.

(** The relaxation magnitude [rho_relaxation] after [reset(i)] and a row of
    [accumulate] calls never exceeds a bound [S] on the density sums
    [|rho_i + rho_j|] of the row, whatever the weights [beta_ij] are. *)
Theorem rho_relaxation_bounded (L : Euler.Limiter R) (i : nat)
    (calls : list (Euler.accumulate_call R)) (S : R) :
  0 <= S ->
  Forall (fun c =>
            Rabs (Euler.density (Euler.hyperbolic_system L) (Euler.call_U_i c)
                  + Euler.density (Euler.hyperbolic_system L) (Euler.call_U_j c))
            <= S) calls ->
  0 <= Euler.rho_relaxation (Euler.accumulate_all (Euler.reset L i) calls) <= S.
Proof.
  intros HS Hall.
  split; [apply rho_relaxation_nonneg|].
  unfold Euler.rho_relaxation, Euler.rho_relaxation_divisor.
  destruct (accumulate_all_sums calls (Euler.reset L i)) as [En Ed].
  destruct (reset_keeps_system L i) as [Rhs _]. rewrite Rhs in En.
  assert (E0 : Euler.rho_relaxation_numerator (Euler.reset L i) = 0
               /\ Euler.rho_relaxation_denominator (Euler.reset L i) = 0).
  { unfold Euler.reset. destruct (Euler.precomputed_values L i).
    split; reflexivity. }
  destruct E0 as [E1 E2]. rewrite E1 in En. rewrite E2 in Ed.
  rewrite En, Ed. to_reals. rewrite !Rplus_0_l.
  pose proof (Rsum_weighted_bound (Euler.hyperbolic_system L) Hall) as Hnum.
  pose proof (Rsum_absolute_weights_nonneg calls) as Hden.
  pose proof R_epsilon_pos as Heps.
  pose proof (Rabs_pos (Rsum (weighted_densities (Euler.hyperbolic_system L)
                                calls))) as Hnn.
  set (num := Rabs (Rsum (weighted_densities (Euler.hyperbolic_system L) calls)))
    in *.
  set (den := Rsum (absolute_weights calls)) in *.
  rewrite (Rabs_right den) by lra.
  apply Rmult_le_reg_r with (den + R_epsilon); [lra|].
  unfold Rdiv. rewrite Rmult_assoc, Rinv_l by lra.
  nra.
Qed.

(** A row of two calls whose density sums are 2, with bound [S = 2]. *)
Lemma rho_relaxation_bounded_witness :
  0 <= Euler.rho_relaxation
         (Euler.accumulate_all (Euler.reset Exact.limiter 0)
            [Exact.edge 0 1; Exact.edge 1 0])
  <= 2.
Proof.
  apply (@rho_relaxation_bounded Exact.limiter 0
           [Exact.edge 0 1; Exact.edge 1 0] 2).
  - lra.
  - repeat constructor; cbn; to_reals;
      (replace (1 + 1) with 2 by lra); rewrite Rabs_right; lra.
Defined.
End RelaxationSums.

(** ** How far [apply_relaxation] moves the bounds *)

Section RelaxationWindow.
Local Open Scope R_scope.


(** The radius is zero when the factor or the cell measure is zero. *)
Lemma relaxation_radius_zero (dim : nat) (hd f : R) :
  Euler.relaxation_radius dim hd 0 = 0 /\ Euler.relaxation_radius dim 0 f = 0.
Proof.
  unfold Euler.relaxation_radius, fixed_power_3. to_reals. split.
  - apply Rmult_0_r.
  - rewrite !sqrt_0.
    destruct (Nat.eqb dim 2); [|destruct (Nat.eqb dim 1)]; lra.
Qed.

(** The radius grows with the cell measure and with the factor. *)
Lemma relaxation_radius_base_monotone (dim : nat) (hd1 hd2 : R) :
  0 <= hd1 <= hd2 ->
  0 <= Euler.relaxation_radius dim hd1 1
  <= Euler.relaxation_radius dim hd2 1.
Proof.
  intros [H0 Hle].
  unfold Euler.relaxation_radius, fixed_power_3. to_reals.
  rewrite !Rmult_1_r.
  pose proof (sqrt_pos hd1) as P1.
  pose proof (sqrt_le_1_alt hd1 hd2 Hle) as S1.
  pose proof (sqrt_pos (sqrt hd1)) as P2.
  pose proof (sqrt_le_1_alt (sqrt hd1) (sqrt hd2) S1) as S2.
  set (a1 := sqrt hd1) in *. set (a2 := sqrt hd2) in *.
  set (b1 := sqrt a1) in *. set (b2 := sqrt a2) in *.
  assert (Hcube : forall x y : R, 0 <= x <= y ->
                    0 <= x * (x * x) <= y * (y * y)).
  { intros x y [Hx Hxy].
    assert (0 <= x * x) by nra.
    assert (x * x <= y * y) by nra.
    split; nra. }
  destruct (Nat.eqb dim 2); [|destruct (Nat.eqb dim 1)].
  - apply Hcube. lra.
  - apply Hcube. lra.
  - lra.
Qed.

Lemma relaxation_radius_scales (dim : nat) (hd f : R) :
  Euler.relaxation_radius dim hd f = Euler.relaxation_radius dim hd 1 * f.
Proof.
  unfold Euler.relaxation_radius. to_reals. rewrite Rmult_1_r. reflexivity.
Qed.

(** In every dimension the relaxation radius is monotone: a larger cell
    measure or a larger factor never gives a smaller radius, and the radius
    is zero when either of them is zero. *)
Theorem relaxation_radius_monotone (dim : nat) (hd1 hd2 f1 f2 : R) :
  0 <= hd1 <= hd2 ->
  0 <= f1 <= f2 ->
  0 <= Euler.relaxation_radius dim hd1 f1 <= Euler.relaxation_radius dim hd2 f2
  /\ Euler.relaxation_radius dim hd1 0 = 0
  /\ Euler.relaxation_radius dim 0 f1 = 0.
Proof.
  intros Hhd Hf.
  destruct (relaxation_radius_zero dim hd1 f1) as [Z1 _].
  destruct (relaxation_radius_zero dim hd1 f1) as [_ Z2].
  split; [|split; assumption].
  rewrite (relaxation_radius_scales dim hd1 f1),
          (relaxation_radius_scales dim hd2 f2).
  pose proof (relaxation_radius_base_monotone dim Hhd) as Hb.
  split; nra.
Qed.

Lemma relaxation_radius_monotone_witness :
  0 <= Euler.relaxation_radius 2 1 1 <= Euler.relaxation_radius 2 4 2.
Proof.
  refine (proj1 (@relaxation_radius_monotone 2 1 4 1 2 _ _)); lra.
Defined.







End RelaxationWindow.

(** ** Degenerate rows *)

Section DegenerateRows.
Local Open Scope R_scope.









End DegenerateRows.

(** * Further properties of the mesh adaptor *)

Section AdaptorTimePoints.
Context {N : Type} `{Number N}.
Variable mt19937_64 : Type.

Let MeshAdaptor : Type := Adaptor.MeshAdaptor N mt19937_64.

(** The test of [analyze]: the time point lies strictly after [t]. *)
Let after (t : N) (t_refinement : N) : bool := n_lt t t_refinement.

(** [remove_if] with the flag-setting predicate is a filter, and the flag
    ends up raised when it was raised or some point was removed. *)
Lemma remove_past_filter (t : N) (pts : list N) :
  forall need : bool,
    Adaptor.remove_past t pts need
    = (filter (after t) pts,
       need || existsb (fun t_refinement => negb (after t t_refinement)) pts).
Proof.
  unfold after.
  induction pts as [| tr pts IH]; intro need; cbn [Adaptor.remove_past filter existsb].
  - rewrite orb_false_r. reflexivity.
  - destruct (n_lt t tr) eqn:E; cbn [negb orb].
    + rewrite IH. reflexivity.
    + rewrite IH. cbn [orb]. rewrite orb_true_r. reflexivity.
Qed.

Lemma filter_idempotent (p : N -> bool) (l : list N) :
  filter p (filter p l) = filter p l.
Proof.
  induction l as [| x l IH]; cbn [filter].
  - reflexivity.
  - destruct (p x) eqn:E; cbn [filter]; rewrite ?E, IH; reflexivity.
Qed.

Lemma existsb_negb_filter (p : N -> bool) (l : list N) :
  existsb (fun x => negb (p x)) (filter p l) = false.
Proof.
  induction l as [| x l IH]; cbn [filter].
  - reflexivity.
  - destruct (p x) eqn:E; cbn [existsb]; rewrite ?E, IH; reflexivity.
Qed.

(** With the fixed-time-points strategy, [analyze(t)] keeps exactly the
    adaptation time points that lie strictly after [t], in their order, and
    changes no other member than the flag; [need_mesh_adaptation_] is raised
    exactly when it was already raised or some time point was not after [t].
    It is never lowered. *)
Theorem analyze_removes_reached_time_points (A : MeshAdaptor) (t : N) :
  Adaptor.time_point_selection_strategy_ A
  = Adaptor.fixed_adaptation_time_points ->
  let pts := Adaptor.adaptation_time_points_ A in
  let need' :=
    (Adaptor.need_mesh_adaptation_ A
     || existsb (fun t_refinement => negb (n_lt t t_refinement)) pts)%bool in
  Adaptor.analyze A t
  = Returns (Adaptor.with_time_points A
               (filter (fun t_refinement => n_lt t t_refinement) pts) need')
  /\ (need' = true
      <-> Adaptor.need_mesh_adaptation_ A = true
          \/ exists t_refinement,
               In t_refinement pts /\ n_lt t t_refinement = false).
Proof.
  intros E pts need'. split.
  - unfold Adaptor.analyze. rewrite E, remove_past_filter. reflexivity.
  - subst need'. rewrite orb_true_iff, existsb_exists.
    split; (intros [Hn | [x [Hin Hx]]]; [left; exact Hn | right]);
      exists x; split; try exact Hin.
    + apply negb_true_iff. exact Hx.
    + apply negb_true_iff. exact Hx.
Qed.

(** Calling [analyze] a second time at the same time changes nothing: every
    time point that was reached is already gone and the flag stays as the
    first call left it.  With an unrecognized strategy both calls throw. *)
Theorem analyze_idempotent (A : MeshAdaptor) (t : N) :
  (A' <- Adaptor.analyze A t ;; Adaptor.analyze A' t)%outcome
  = Adaptor.analyze A t.
Proof.
  unfold Adaptor.analyze.
  destruct (Adaptor.time_point_selection_strategy_ A) as [| v] eqn:E.
  - rewrite remove_past_filter. cbn [bind].
    cbn [Adaptor.with_time_points Adaptor.time_point_selection_strategy_
         Adaptor.adaptation_time_points_ Adaptor.need_mesh_adaptation_].
    rewrite E, remove_past_filter.
    fold (after t).
    rewrite filter_idempotent, existsb_negb_filter, orb_false_r.
    reflexivity.
  - reflexivity.
Qed.

(** [prepare(t)] always clears the flag, never adds or reorders a time
    point, keeps the strategies, the fractions and the generator, and doing
    it twice at the same time is the same as doing it once. *)
Theorem prepare_idempotent (A : MeshAdaptor) (t : N) :
  Adaptor.prepare (Adaptor.prepare A t) t = Adaptor.prepare A t
  /\ Adaptor.need_mesh_adaptation_ (Adaptor.prepare A t) = false
  /\ incl (Adaptor.adaptation_time_points_ (Adaptor.prepare A t))
          (Adaptor.adaptation_time_points_ A)
  /\ length (Adaptor.adaptation_time_points_ (Adaptor.prepare A t))
     <= length (Adaptor.adaptation_time_points_ A)
  /\ Adaptor.prepare A t
     = Adaptor.with_time_points A
         (Adaptor.adaptation_time_points_ (Adaptor.prepare A t)) false.
Proof.
  unfold Adaptor.prepare.
  destruct (Adaptor.time_point_selection_strategy_ A) as [| v] eqn:E;
    cbn [Adaptor.with_time_points Adaptor.time_point_selection_strategy_
         Adaptor.adaptation_time_points_ Adaptor.need_mesh_adaptation_];
    rewrite ?E; repeat split.
  - rewrite filter_idempotent. reflexivity.
  - apply incl_filter.
  - apply filter_length_le.
  - apply incl_refl.
  - apply Nat.le_refl.
Qed.
End AdaptorTimePoints.

(** [analyze] at time [1.5] on the time points [1] and [2]: the point [1]
    is removed and the flag is raised. *)
Lemma analyze_removes_reached_time_points_witness :
  Adaptor.analyze
    (Mesh.adaptor Adaptor.global_refinement Adaptor.fixed_number
                  Adaptor.fixed_adaptation_time_points) 1.5%float
  = Returns
      (Adaptor.with_time_points
         (Mesh.adaptor Adaptor.global_refinement Adaptor.fixed_number
                       Adaptor.fixed_adaptation_time_points)
         [2%float] true).
Proof.
  refine (eq_trans
            (proj1 (@analyze_removes_reached_time_points binary64 _ nat
                      (Mesh.adaptor Adaptor.global_refinement
                                    Adaptor.fixed_number
                                    Adaptor.fixed_adaptation_time_points)
                      1.5%float _)) _).
  - reflexivity.
  - vm_compute. reflexivity.
Defined.

Section AdaptorSchedule.
Local Open Scope R_scope.
Variable mt19937_64 : Type.

Let MeshAdaptor : Type := Adaptor.MeshAdaptor R mt19937_64.


End AdaptorSchedule.


Section AdaptorMarking.
Context {N : Type} `{Number N}.
Variable mt19937_64 : Type.
Variable distribution : mt19937_64 -> N * mt19937_64.
Variable refine_and_coarsen_fixed_number :
  Adaptor.Triangulation -> list N -> N -> N -> Adaptor.Triangulation.
Variable seed : nat -> mt19937_64.
Variable three_tenths : N.

Let MeshAdaptor : Type := Adaptor.MeshAdaptor N mt19937_64.
Let mark_cells : MeshAdaptor -> Adaptor.Triangulation
                 -> outcome (Adaptor.Triangulation * mt19937_64) :=
  Adaptor.mark_cells_for_coarsening_and_refinement
    distribution refine_and_coarsen_fixed_number.

Lemma generate_length (n : nat) :
  forall g : mt19937_64, length (fst (Adaptor.generate distribution n g)) = n.
Proof.
  induction n as [| n IH]; intro g; cbn [Adaptor.generate].
  - reflexivity.
  - destruct (distribution g) as [x g'].
    specialize (IH g').
    destruct (Adaptor.generate distribution n g') as [xs g''].
    cbn [fst length] in *. rewrite IH. reflexivity.
Qed.

(** The indicators are drawn one after the other from the one generator:
    drawing [n + m] of them is drawing [n] and then [m] from the state the
    first [n] draws left. *)
Theorem generate_continues_the_stream (n m : nat) (g : mt19937_64) :
  Adaptor.generate distribution (n + m) g
  = (fst (Adaptor.generate distribution n g)
     ++ fst (Adaptor.generate distribution m
               (snd (Adaptor.generate distribution n g))),
     snd (Adaptor.generate distribution m
            (snd (Adaptor.generate distribution n g))))
  /\ length (fst (Adaptor.generate distribution n g)) = n.
Proof.
  split; [|apply generate_length].
  revert g. induction n as [| n IH]; intro g; cbn [Nat.add Adaptor.generate].
  - cbn [fst snd app].
    destruct (Adaptor.generate distribution m g). reflexivity.
  - destruct (distribution g) as [x g'].
    rewrite (IH g').
    destruct (Adaptor.generate distribution n g') as [xs g''].
    cbn [fst snd app]. reflexivity.
Qed.

(** Under global refinement the function returns a triangulation with the
    same number of cells, all of them flagged for refinement, with every
    coarsen flag as it was; the random generator is not touched. *)
Theorem global_refinement_flags_every_cell (A : MeshAdaptor)
    (tria : Adaptor.Triangulation) :
  Adaptor.adaptation_strategy_ A = Adaptor.global_refinement ->
  exists marked : Adaptor.Triangulation,
    mark_cells A tria = Returns (marked, Adaptor.mersenne_twister_ A)
    /\ length marked = length tria
    /\ Forall (fun c => Adaptor.refine_flag c = true) marked
    /\ map Adaptor.coarsen_flag marked = map Adaptor.coarsen_flag tria.
Proof.
  intro E. exists (map Adaptor.set_refine_flag tria).
  split; [|split; [|split]].
  - unfold mark_cells, Adaptor.mark_cells_for_coarsening_and_refinement,
      Adaptor.compute_indicators.
    rewrite E. reflexivity.
  - apply length_map.
  - apply Forall_map. apply Forall_forall. intros c _. reflexivity.
  - rewrite map_map. reflexivity.
Qed.

(** Under random adaptation with the fixed-number marking, the function
    draws exactly one indicator per active cell and hands the untouched
    triangulation, these indicators and the two configured fractions to
    [refine_and_coarsen_fixed_number]; it returns the generator as the draws
    left it. *)
Theorem random_adaptation_draws_one_indicator_per_cell (A : MeshAdaptor)
    (tria : Adaptor.Triangulation) :
  Adaptor.adaptation_strategy_ A = Adaptor.random_adaptation ->
  Adaptor.marking_strategy_ A = Adaptor.fixed_number ->
  exists (indicators : list N) (g' : mt19937_64),
    Adaptor.generate distribution (length tria) (Adaptor.mersenne_twister_ A)
    = (indicators, g')
    /\ length indicators = length tria
    /\ mark_cells A tria
       = Returns (refine_and_coarsen_fixed_number tria indicators
                    (Adaptor.fixed_number_refinement_fraction_ A)
                    (Adaptor.fixed_number_coarsening_fraction_ A), g').
Proof.
  intros Ea Em.
  pose proof (generate_length (length tria) (Adaptor.mersenne_twister_ A))
    as Hlen.
  unfold mark_cells, Adaptor.mark_cells_for_coarsening_and_refinement,
    Adaptor.compute_indicators.
  rewrite Ea. cbn [bind].
  destruct (Adaptor.generate distribution (length tria)
              (Adaptor.mersenne_twister_ A)) as [indicators g'].
  exists indicators, g'. rewrite Em. cbn [fst] in Hlen.
  repeat split. exact Hlen.
Qed.

(** An adaptor used as its constructor leaves it, at any time and on any
    triangulation: [prepare] and [analyze] change nothing and request no
    adaptation, since there is no time point, and marking flags every cell
    for refinement and leaves the generator at the state of seed 42.  None
    of the three throws. *)
Theorem constructed_adaptor_refines_globally (t : N)
    (tria : Adaptor.Triangulation) :
  let A := MeshAdaptor_constructor seed three_tenths in
  Adaptor.prepare A t = A
  /\ Adaptor.analyze A t = Returns A
  /\ mark_cells A tria = Returns (map Adaptor.set_refine_flag tria, seed 42).
Proof.
  cbv zeta. repeat split.
Qed.
End AdaptorMarking.

(** Two unflagged cells under global refinement. *)
Lemma global_refinement_flags_every_cell_witness :
  exists marked : Adaptor.Triangulation,
    Mesh.mark_cells
      (Mesh.adaptor Adaptor.global_refinement Adaptor.fixed_number
                    Adaptor.fixed_adaptation_time_points)
      [Mesh.unflagged; Mesh.unflagged]
    = Returns (marked, 42)
    /\ length marked = 2
    /\ Forall (fun c => Adaptor.refine_flag c = true) marked
    /\ map Adaptor.coarsen_flag marked = [false; false].
Proof.
  apply (@global_refinement_flags_every_cell binary64 nat
           Mesh.distribution Mesh.refine_and_coarsen_fixed_number
           (Mesh.adaptor Adaptor.global_refinement Adaptor.fixed_number
                         Adaptor.fixed_adaptation_time_points)
           [Mesh.unflagged; Mesh.unflagged]).
  reflexivity.
Defined.

(** Two cells under random adaptation: two draws. *)
Lemma random_adaptation_draws_one_indicator_per_cell_witness :
  exists (indicators : list binary64) (g' : nat),
    Adaptor.generate Mesh.distribution 2 42 = (indicators, g')
    /\ length indicators = 2
    /\ Mesh.mark_cells
         (Mesh.adaptor Adaptor.random_adaptation Adaptor.fixed_number
                       Adaptor.fixed_adaptation_time_points)
         [Mesh.unflagged; Mesh.unflagged]
       = Returns
           (Mesh.refine_and_coarsen_fixed_number
              [Mesh.unflagged; Mesh.unflagged] indicators
              0x1.3333333333333p-2%float 0x1.3333333333333p-2%float, g').
Proof.
  apply (@random_adaptation_draws_one_indicator_per_cell binary64 nat
           Mesh.distribution Mesh.refine_and_coarsen_fixed_number
           (Mesh.adaptor Adaptor.random_adaptation Adaptor.fixed_number
                         Adaptor.fixed_adaptation_time_points)
           [Mesh.unflagged; Mesh.unflagged]).
  - reflexivity.
  - reflexivity.
Defined.
